(** * Hosting Ops Dashboard: the data-derivation pipeline of [src/pages/index.js]

    A shallow embedding of the pure part of the page component: the CSV
    decoder [parseCSV], the [metrics], [filteredRows] and [suggestions]
    derivations, and the incident ledger ([addIncident], [incidentRows],
    [exportIncidents]).

    Conventions of the embedding.
    - A JavaScript string is a [string]; each character is one code unit in
      the range 0..255, read as the Latin-1 code point of that number.  On
      this range [toLowerCase], [trim] and the regular-expression class
      [\s] are modelled exactly as ECMAScript defines them; text with code
      units above 255 is outside the model.
    - A record (a plain JavaScript object whose values are strings) is the
      list of its own properties in [Object.keys] order.
    - React state is passed explicitly. *)

From Stdlib Require Import Bool Arith ZArith Lia List Ascii String.
From Stdlib Require Import Permutation Sorted SpecFloat.
Import ListNotations.

Local Open Scope string_scope.
Local Open Scope list_scope.

(** ** JavaScript string primitives *)

Module JsString.

Definition code (c : ascii) : nat := nat_of_ascii c.

(** [WhiteSpace] and [LineTerminator] code points below 256: TAB, LF, VT,
    FF, CR, SP and NBSP.  This is both what [String.prototype.trim]
    strips and what [\s] matches. *)
Definition is_space (c : ascii) : bool :=
  let n := code c in
  (((9 <=? n) && (n <=? 13)) || (n =? 32) || (n =? 160))%nat.

(** Unicode default lower-casing restricted to Latin-1: A-Z, and
    U+00C0..U+00DE except the multiplication sign U+00D7, move up by 32. *)
Definition lower_char (c : ascii) : ascii :=
  let n := code c in
  if (((65 <=? n) && (n <=? 90))
      || ((192 <=? n) && (n <=? 222) && negb (n =? 215)))%nat
  then ascii_of_nat (n + 32) else c.

Fixpoint toLowerCase (s : string) : string :=
  match s with
  | EmptyString => EmptyString
  | String c s' => String (lower_char c) (toLowerCase s')
  end.

Fixpoint trimStart (s : string) : string :=
  match s with
  | EmptyString => EmptyString
  | String c s' => if is_space c then trimStart s' else s
  end.

(** [trimEnd] keeps a character when it is not a space or when something
    survives after it. *)
Fixpoint trimEnd (s : string) : string :=
  match s with
  | EmptyString => EmptyString
  | String c s' =>
      match trimEnd s' with
      | EmptyString => if is_space c then EmptyString else String c EmptyString
      | t => String c t
      end
  end.

Definition trim (s : string) : string := trimEnd (trimStart s).

(** [s.startsWith(p)] *)
Fixpoint startsWith (s p : string) {struct p} : bool :=
  match p with
  | EmptyString => true
  | String b p' =>
      match s with
      | EmptyString => false
      | String a s' => Ascii.eqb a b && startsWith s' p'
      end
  end.

(** [s.includes(x)] *)
Fixpoint includes (s x : string) : bool :=
  startsWith s x ||
  match s with
  | EmptyString => false
  | String _ s' => includes s' x
  end.

(** [l.join(sep)] *)
Fixpoint join (sep : string) (l : list string) : string :=
  match l with
  | [] => EmptyString
  | [x] => x
  | x :: rest => (x ++ sep ++ join sep rest)%string
  end.

(** Splitting keeps the piece under construction in [cur]; the pieces come
    out in order, and the last piece is always emitted, so the empty
    string splits to one empty piece. *)
Definition snoc (s : string) (c : ascii) : string :=
  (s ++ String c EmptyString)%string.

(** [s.split(",")] *)
Fixpoint split_on (d : ascii) (cur s : string) : list string :=
  match s with
  | EmptyString => [cur]
  | String c s' =>
      if Ascii.eqb c d then cur :: split_on d EmptyString s'
      else split_on d (snoc cur c) s'
  end.

Definition comma : ascii := ascii_of_nat 44.
Definition LF : ascii := ascii_of_nat 10.
Definition CR : ascii := ascii_of_nat 13.

Definition split_comma (s : string) : list string := split_on comma EmptyString s.

(** [s.split(/\r?\n/)]: a line break is LF, or CR immediately followed by
    LF; a CR not followed by LF stays in the line. *)
Fixpoint split_lines_from (cur s : string) : list string :=
  match s with
  | EmptyString => [cur]
  | String c s' =>
      if Ascii.eqb c LF then cur :: split_lines_from EmptyString s'
      else
        match s' with
        | String c' s'' =>
            if Ascii.eqb c CR && Ascii.eqb c' LF
            then cur :: split_lines_from EmptyString s''
            else split_lines_from (snoc cur c) s'
        | EmptyString => split_lines_from (snoc cur c) s'
        end
  end.

Definition split_lines (s : string) : list string := split_lines_from EmptyString s.

(** [s.split(/[;,\s]+/)]: a maximal run of separators is one break.
    [in_run] says the previous character was a separator, so the break has
    been emitted already. *)
Definition is_sep (c : ascii) : bool :=
  (code c =? 59)%nat || (code c =? 44)%nat || is_space c.

Fixpoint split_seps_from (in_run : bool) (cur s : string) : list string :=
  match s with
  | EmptyString => [cur]
  | String c s' =>
      if is_sep c then
        if in_run then split_seps_from true EmptyString s'
        else cur :: split_seps_from true EmptyString s'
      else split_seps_from false (snoc cur c) s'
  end.

Definition split_seps (s : string) : list string :=
  split_seps_from false EmptyString s.

(** JavaScript truthiness of a string. *)
Definition truthy (s : string) : bool :=
  match s with EmptyString => false | _ => true end.

End JsString.

Import JsString.

(** ** Records: plain JavaScript objects with string values *)

Module JsObject.

(** The own properties of an object, listed in [Object.keys] order:
    array-index keys first in ascending numeric order, then the other
    keys in the order of their creation. *)
Definition obj : Type := list (string * string).

Definition is_digit (c : ascii) : bool :=
  ((48 <=? code c) && (code c <=? 57))%nat.

Fixpoint digits_value (acc : N) (s : string) : option N :=
  match s with
  | EmptyString => Some acc
  | String c s' =>
      if is_digit c
      then digits_value (10 * acc + N.of_nat (code c - 48)) s'
      else None
  end.

(** A key is an array index when it is the canonical decimal form of an
    integer in 0 .. 2^32 - 2. *)
Definition array_index (k : string) : option N :=
  match k with
  | EmptyString => None
  | String c rest =>
      if (code c =? 48)%nat
      then match rest with EmptyString => Some 0%N | _ => None end
      else
        match digits_value 0 k with
        | Some n => if (n <? 4294967295)%N then Some n else None
        | None => None
        end
  end.

(** [o[k]] for an own property; [None] stands for [undefined].  Properties
    inherited from [Object.prototype] are not represented: every fixed
    field name the page reads ([id], [name], [gender], [gender_comfort],
    [allergies], [accessibility], [confirmed], [status], ...) is absent
    from the prototype. *)
Fixpoint obj_get (k : string) (o : obj) : option string :=
  match o with
  | [] => None
  | (k', v) :: o' => if String.eqb k k' then Some v else obj_get k o'
  end.

Definition obj_has (k : string) (o : obj) : bool :=
  match obj_get k o with Some _ => true | None => false end.

Fixpoint obj_update (k v : string) (o : obj) : obj :=
  match o with
  | [] => []
  | (k', v') :: o' =>
      if String.eqb k k' then (k', v) :: o' else (k', v') :: obj_update k v o'
  end.

(** A new array-index key goes before the first key that is not an array
    index or is a larger one. *)
Fixpoint obj_insert_index (n : N) (k v : string) (o : obj) : obj :=
  match o with
  | [] => [(k, v)]
  | (k', v') :: o' =>
      match array_index k' with
      | Some m =>
          if (m <? n)%N then (k', v') :: obj_insert_index n k v o'
          else (k, v) :: o
      | None => (k, v) :: o
      end
  end.

(** [o[k] = v] for a string [v].  The key [__proto__] reaches the setter
    of [Object.prototype], which ignores a value that is neither an object
    nor [null]: no own property is created. *)
Definition obj_set (k v : string) (o : obj) : obj :=
  if String.eqb k "__proto__" then o
  else if obj_has k o then obj_update k v o
  else
    match array_index k with
    | Some n => obj_insert_index n k v o
    | None => o ++ [(k, v)]
    end.

(** [Object.keys(o)] *)
Definition keys (o : obj) : list string := map fst o.

(** A field read the way every derivation does it, [undefined] and the
    empty string both giving the empty string. *)
Definition field (k : string) (o : obj) : string :=
  match obj_get k o with
  | Some v => v
  | None => EmptyString
  end.

(** Two records are the same mapping. *)
Definition obj_equiv (a b : obj) : Prop :=
  forall k, obj_get k a = obj_get k b.

End JsObject.

Import JsObject.

(** ** Tabular decoder *)

(** The [headers.forEach] of [parseCSV], started at index [i]: header [h]
    at index [i] sets [row[h.trim()]] to the trimmed [cols[i]], a missing
    column read as the empty string. *)
Fixpoint fill_row (i : nat) (headers cols : list string) (row : obj) : obj :=
  match headers with
  | [] => row
  | h :: hs =>
      fill_row (S i) hs cols (obj_set (trim h) (trim (nth i cols EmptyString)) row)
  end.

Definition parse_line (headers : list string) (l : string) : obj :=
  fill_row 0 headers (split_comma l) [].

Definition parseCSV (text : string) : list obj :=
  match split_lines (trim text) with
  | [] => []
  | l0 :: rest => map (parse_line (split_comma l0)) rest
  end.

(** ** Metrics aggregator *)

(** A JavaScript Number is an IEEE 754 binary64 value. *)
Module JsNumber.

Definition prec : Z := 53.
Definition emax : Z := 1024.

Definition number : Type := spec_float.

Definition of_Z (z : Z) : number := binary_normalize prec emax z 0 false.
Definition of_nat (n : nat) : number := of_Z (Z.of_nat n).

Definition mul : number -> number -> number := SFmul prec emax.
Definition div : number -> number -> number := SFdiv prec emax.

(** [Math.round(x)]: the integer nearest to [x], a tie going up; a result
    of zero keeps the sign of [x]. *)
Definition Math_round (x : number) : number :=
  match x with
  | S754_finite s m e =>
      if (0 <=? e)%Z then x
      else
        let v := if s then Z.neg m else Z.pos m in
        let q := ((2 * v + 2 ^ (- e)) / 2 ^ (1 - e))%Z in
        if (q =? 0)%Z then S754_zero s else of_Z q
  | _ => x
  end.

End JsNumber.

Import JsNumber.

Definition is_yes (r : obj) : bool :=
  String.eqb (toLowerCase (field "confirmed" r)) "yes".

Definition is_open (r : obj) : bool :=
  negb (String.eqb (toLowerCase (field "status" r)) "closed").

(** [(part, total) => Math.round(100 * (total ? part/total : 0))] *)
Definition pct (part total : nat) : number :=
  Math_round
    (mul (of_nat 100)
         (match total with
          | O => of_nat 0
          | S _ => div (of_nat part) (of_nat total)
          end)).

Record metrics_t : Type := {
  hostsConfirmedPct : number;
  guestsConfirmedPct : number;
  matchesMade : nat;
  openIncidents : nat
}.

Definition metrics (hosts guests incidents matches : list obj) : metrics_t :=
  let hostsConfirmed := List.length (filter is_yes hosts) in
  let guestsConfirmed := List.length (filter is_yes guests) in
  let openIncidents := List.length (filter is_open incidents) in
  {| hostsConfirmedPct := pct hostsConfirmed (List.length hosts);
     guestsConfirmedPct := pct guestsConfirmed (List.length guests);
     matchesMade := List.length matches;
     openIncidents := openIncidents |}.

(** ** Filter engine *)

Record filters_t : Type := {
  gender : string;
  allergy : string;
  access : string
}.

(** [a || b] on strings. *)
Definition or_else (a b : string) : string := if truthy a then a else b.

Definition okG (f : filters_t) (r : obj) : bool :=
  let g := toLowerCase (or_else (field "gender_comfort" r) (field "gender" r)) in
  String.eqb (gender f) "all" || includes g (gender f).

Definition okA (f : filters_t) (r : obj) : bool :=
  let a := toLowerCase (field "allergies" r) in
  String.eqb (allergy f) "all" || includes a (allergy f).

Definition okAc (f : filters_t) (r : obj) : bool :=
  let ac := toLowerCase (field "accessibility" r) in
  String.eqb (access f) "all" || includes ac (access f).

Definition okQ (search : string) (r : obj) : bool :=
  let q := toLowerCase search in
  negb (truthy q) || includes (toLowerCase (field "name" r)) q.

Definition filteredRows
    (tab : string) (hosts guests : list obj) (f : filters_t) (search : string)
    : list obj :=
  let src := if String.eqb tab "hosts" then hosts else guests in
  filter (fun r => okG f r && okA f r && okAc f r && okQ search r) src.

(** ** Matching engine *)

Record suggestion : Type := {
  guest_id : option string;
  host_id : option string;
  score : Z;
  reasons : list string
}.

Definition genderOk (g h : obj) : bool :=
  let pref := toLowerCase (field "gender_comfort" h) in
  let gg := toLowerCase (field "gender" g) in
  negb (truthy pref)
  || String.eqb pref "any"
  || (includes pref "female" && startsWith gg "f")
  || (includes pref "male" && startsWith gg "m")
  || (includes pref "nonbinary" && startsWith gg "n").

Definition allergyOk (g h : obj) : bool :=
  let ga := toLowerCase (field "allergies" g) in
  let ha := toLowerCase (field "allergies" h) in
  negb (truthy ga)
  || negb (truthy ha)
  || negb (existsb (fun x => truthy x && includes ga x) (split_seps ha)).

Definition accessOk (g h : obj) : bool :=
  includes (toLowerCase (field "accessibility" g)) "wheelchair"
  && includes (toLowerCase (field "accessibility" h)) "elevator".

Definition bothConfirmed (g h : obj) : bool := is_yes g && is_yes h.

(** One conditional of the scoring block: add [pts] and push [reason]. *)
Definition bump (c : bool) (pts : Z) (reason : string)
    (acc : Z * list string) : Z * list string :=
  if c then (fst acc + pts, snd acc ++ [reason])%Z else acc.

(** The score and reasons of a pair that passed the gate. *)
Definition score_pair (g h : obj) : Z * list string :=
  bump (bothConfirmed g h) 2 "Both confirmed"
    (bump (accessOk g h) 3 "Accessibility"
       (bump (allergyOk g h) 5 "Allergies compatible"
          (bump (genderOk g h) 10 "Gender comfort ok" (0%Z, [])))).

(** The body of the inner [hosts.forEach] callback, acting on [out]. *)
Definition visit (g h : obj) (out : list suggestion) : list suggestion :=
  if negb (genderOk g h) then out
  else
    let sr := score_pair g h in
    if (0 <? fst sr)%Z
    then out ++ [ {| guest_id := obj_get "id" g; host_id := obj_get "id" h;
                     score := fst sr; reasons := snd sr |} ]
    else out.

(** [guests.forEach(g => hosts.forEach(h => ...))] *)
Definition collect (guests hosts : list obj) : list suggestion :=
  fold_left (fun out g => fold_left (fun out h => visit g h out) hosts out)
            guests [].

(** [Array.prototype.sort] is stable, and with a comparator that is a total
    preorder its result is determined: each element goes in front of the
    first later element that does not have to precede it. *)
Section Sort.
Context {A : Type} (cmp : A -> A -> Z).

Fixpoint insert (x : A) (l : list A) : list A :=
  match l with
  | [] => [x]
  | y :: l' => if (cmp x y <=? 0)%Z then x :: l else y :: insert x l'
  end.

Fixpoint sort (l : list A) : list A :=
  match l with
  | [] => []
  | x :: l' => insert x (sort l')
  end.
End Sort.

(** [(a, b) => b.score - a.score] *)
Definition by_score (a b : suggestion) : Z := (score b - score a)%Z.

Definition suggestions (hosts guests : list obj) : list suggestion :=
  firstn 50 (sort by_score (collect guests hosts)).

(** ** Incident ledger *)

(** The submitted form: [fd.get(name)] is [null] for a field that is not in
    the form. *)
Record form_data : Type := {
  fd_time : option string;
  fd_type : option string;
  fd_person : option string;
  fd_status : option string;
  fd_notes : option string
}.

(** [v || d] for a form value. *)
Definition get_or (v : option string) (d : string) : string :=
  match v with
  | Some s => or_else s d
  | None => d
  end.

(** The object literal built by [addIncident]; [now] is
    [new Date().toISOString()]. *)
Definition incident_row (now : string) (fd : form_data) : obj :=
  [ ("time", get_or (fd_time fd) now);
    ("type", get_or (fd_type fd) EmptyString);
    ("person", get_or (fd_person fd) EmptyString);
    ("status", get_or (fd_status fd) "Open");
    ("notes", get_or (fd_notes fd) EmptyString) ].

Record ledger : Type := {
  incidents : list obj;
  addedIncidents : list obj
}.

Definition addIncident (now : string) (fd : form_data) (st : ledger) : ledger :=
  {| incidents := incidents st;
     addedIncidents := incident_row now fd :: addedIncidents st |}.

Definition incidentRows (st : ledger) : list obj :=
  addedIncidents st ++ incidents st.

Definition quote : ascii := ascii_of_nat 34.

(** The global replace of [esc]: every double quote becomes two. *)
Fixpoint double_quotes (s : string) : string :=
  match s with
  | EmptyString => EmptyString
  | String c s' =>
      if Ascii.eqb c quote
      then String quote (String quote (double_quotes s'))
      else String c (double_quotes s')
  end.

(** [esc]: the value, [undefined] read as the empty string, with its
    quotes doubled, between two double quotes. *)
Definition esc (v : option string) : string :=
  let s := match v with Some s => s | None => EmptyString end in
  String quote (double_quotes s ++ String quote EmptyString)%string.

(** The text handed to the [Blob] that is downloaded as [incidents.csv];
    [None] when the function returns before creating anything. *)
Definition exportIncidents (st : ledger) : option string :=
  match incidentRows st with
  | [] => None
  | r0 :: _ =>
      let headers := keys r0 in
      Some (join (String LF EmptyString)
              ([join "," headers] ++
               map (fun r => join "," (map (fun h => esc (obj_get h r)) headers))
                   (incidentRows st)))
  end.

(** * Specification-side definitions *)

Definition ge_score (a b : suggestion) : Prop := (score b <= score a)%Z.

(** The suggestion the engine builds for a pair. *)
Definition suggestion_of (gh : obj * obj) : suggestion :=
  let (g, h) := gh in
  {| guest_id := obj_get "id" g; host_id := obj_get "id" h;
     score := fst (score_pair g h); reasons := snd (score_pair g h) |}.

(** A pair qualifies when it passes the gender gate. *)
Definition qualifies (gh : obj * obj) : bool := genderOk (fst gh) (snd gh).

(** The qualifying pairs, guest-major then host-minor. *)
Definition qualifying (guests hosts : list obj) : list (obj * obj) :=
  filter qualifies (list_prod guests hosts).

Definition example_host : obj :=
  [ ("allergies", "peanuts"); ("accessibility", "elevator");
    ("confirmed", "yes"); ("gender_comfort", "any") ].

Definition example_guest : obj :=
  [ ("allergies", EmptyString); ("accessibility", "wheelchair");
    ("confirmed", "yes"); ("gender", "female") ].

(** [round(100 * c / n)] in exact arithmetic, a tie going up, and 0 for an
    empty collection. *)
Definition exact_pct (c n : nat) : Z :=
  match n with
  | O => 0%Z
  | S _ => ((200 * Z.of_nat c + Z.of_nat n) / (2 * Z.of_nat n))%Z
  end.

Definition number_eqb (x y : number) : bool :=
  match x, y with
  | S754_zero s, S754_zero s' => Bool.eqb s s'
  | S754_infinity s, S754_infinity s' => Bool.eqb s s'
  | S754_nan, S754_nan => true
  | S754_finite s m e, S754_finite s' m' e' =>
      Bool.eqb s s' && Pos.eqb m m' && Z.eqb e e'
  | _, _ => false
  end.

(** [pct] agrees with [exact_pct] on every count out of every total below
    [bound]. *)
Definition pct_exact_below (bound : nat) : bool :=
  forallb (fun n =>
    forallb (fun c => number_eqb (pct c n) (of_Z (exact_pct c n)))
            (seq 0 (S n)))
    (seq 0 bound).

Definition host_confirmed (v : string) : obj := [("confirmed", v)].

(** Forty hosts, twenty-three of them confirmed. *)
Definition hosts_23_of_40 : list obj :=
  repeat (host_confirmed "yes") 23 ++ repeat (host_confirmed "no") 17.

(** The values the three [select] elements of the page can put in the
    filter configuration. *)
Inductive gender_option : Type := G_all | G_female | G_male | G_nonbinary.
Inductive allergy_option : Type := A_all | A_gluten | A_peanuts.
Inductive access_option : Type := X_all | X_wheelchair | X_elevator.

Definition gender_value (o : gender_option) : string :=
  match o with
  | G_all => "all" | G_female => "female" | G_male => "male"
  | G_nonbinary => "nonbinary"
  end.

Definition allergy_value (o : allergy_option) : string :=
  match o with A_all => "all" | A_gluten => "gluten" | A_peanuts => "peanuts" end.

Definition access_value (o : access_option) : string :=
  match o with
  | X_all => "all" | X_wheelchair => "wheelchair" | X_elevator => "elevator"
  end.

Definition selected (g : gender_option) (a : allergy_option) (x : access_option)
    : filters_t :=
  {| gender := gender_value g; allergy := allergy_value a; access := access_value x |}.

(** The record's gender-like field: [gender_comfort], or [gender] when that
    is missing or empty. *)
Definition gender_like (r : obj) : string :=
  or_else (field "gender_comfort" r) (field "gender" r).

(** Case-insensitive substring containment. *)
Definition contains_ci (text needle : string) : bool :=
  includes (toLowerCase text) (toLowerCase needle).

Fixpoint count_quotes (s : string) : nat :=
  match s with
  | EmptyString => 0
  | String c s' => (if Ascii.eqb c quote then 1 else 0) + count_quotes s'
  end.

(** Reading an escaped body back: two quotes in a row stand for one. *)
Fixpoint undouble (s : string) : string :=
  match s with
  | EmptyString => EmptyString
  | String c s' =>
      if Ascii.eqb c quote then
        match s' with
        | String c' s'' =>
            if Ascii.eqb c' quote then String quote (undouble s'')
            else String c (undouble s')
        | EmptyString => String c EmptyString
        end
      else String c (undouble s')
  end.

Definition nl : string := String LF EmptyString.

Definition or_empty (v : option string) : string :=
  match v with Some s => s | None => EmptyString end.

Definition proto : string := "__proto__".

Fixpoint has_char (d : ascii) (s : string) : bool :=
  match s with
  | EmptyString => false
  | String c s' => Ascii.eqb c d || has_char d s'
  end.

(** The encoder of the round-trip property, following the specification's
    words: the header row is the keys (of the first record) joined by
    commas, then one row per record, its values for those keys joined by
    commas; the rows are separated by line feeds. *)
Definition encode_row (ks : list string) (r : obj) : string :=
  join "," (map (fun k => field k r) ks).

Definition encodeCSV (rs : list obj) : string :=
  match rs with
  | [] => EmptyString
  | r0 :: _ => join nl (join "," (keys r0) :: map (encode_row (keys r0)) rs)
  end.

(** Text that survives the decoder unchanged as a header name or a value:
    no comma, no line feed, no white space at either end. *)
Definition plain (s : string) : Prop :=
  has_char comma s = false /\ has_char LF s = false /\ trim s = s.

(** A record that has exactly the keys [ks], with plain values. *)
Definition encodable (ks : list string) (r : obj) : Prop :=
  (forall k, In k (keys r) <-> In k ks)
  /\ Forall (fun k => plain (field k r)) ks.

(** * The rest of the page *)

(** ** Dataset loader *)

(** What one [fetch] of [fetchCsv] comes to: the request fails and the
    promise rejects; the response arrives with a status outside 200..299;
    the response is fine but reading its body rejects; or the body text is
    read. *)
Inductive fetch_outcome : Type :=
| Fetch_rejects
| Not_ok
| Text_rejects
| Text (text : string).

(** [fetchCsv]: [None] is a rejected promise. *)
Definition fetchCsv (o : fetch_outcome) : option (list obj) :=
  match o with
  | Fetch_rejects => None
  | Not_ok => Some []
  | Text_rejects => None
  | Text text => Some (parseCSV text)
  end.

(** The five collections held in React state. *)
Record page_data : Type := {
  d_hosts : list obj;
  d_guests : list obj;
  d_matches : list obj;
  d_incidents : list obj;
  d_comms : list obj
}.

Definition initial_data : page_data :=
  {| d_hosts := []; d_guests := []; d_matches := []; d_incidents := [];
     d_comms := [] |}.

(** The effect run on mount: [Promise.all] over the five [fetchCsv] calls,
    then the five setters.  When one promise rejects, [Promise.all] rejects
    and the setters are not reached. *)
Definition load (oh og om oi oc : fetch_outcome) (st : page_data) : page_data :=
  match fetchCsv oh, fetchCsv og, fetchCsv om, fetchCsv oi, fetchCsv oc with
  | Some h, Some g, Some m, Some i, Some c =>
      {| d_hosts := h; d_guests := g; d_matches := m; d_incidents := i;
         d_comms := c |}
  | _, _, _, _, _ => st
  end.

(** What a request that does not reject contributes. *)
Definition rows_of (o : fetch_outcome) : list obj :=
  match o with
  | Text text => parseCSV text
  | _ => []
  end.

(** ** Transportation tracker *)

(** The status shown on a guest's card.  [Date_parse] is [Date.parse],
    [None] standing for [NaN]; [now] is [Date.now()].  Both are whole
    numbers of milliseconds that a double holds exactly. *)
Definition transport_status
    (Date_parse : string -> option Z) (now : Z) (g : obj) : string :=
  match Date_parse (field "arrival_time" g) with
  | None => "Unknown"
  | Some t =>
      if (t <? now - 3600000)%Z then "Arrived"
      else if (t <? now + 1800000)%Z then "Landing soon"
      else "In transit"
  end.

(** ** Further definitions for the properties below *)

(** The points the scoring block adds together with each reason. *)
Definition points (reason : string) : Z :=
  if String.eqb reason "Gender comfort ok" then 10
  else if String.eqb reason "Allergies compatible" then 5
  else if String.eqb reason "Accessibility" then 3
  else if String.eqb reason "Both confirmed" then 2
  else 0.

Definition sum_points (rs : list string) : Z :=
  fold_right (fun r acc => (points r + acc)%Z) 0%Z rs.

(** A host states no gender preference: [gender_comfort] is missing, empty
    or, in any letter case, "any". *)
Definition no_preference (h : obj) : Prop :=
  toLowerCase (field "gender_comfort" h) = EmptyString
  \/ toLowerCase (field "gender_comfort" h) = "any".

(** The five columns of an incident added on the page. *)
Definition incident_columns : list string :=
  ["time"; "type"; "person"; "status"; "notes"].

(** The specification's formula [round(100 * c / n)] evaluated in doubles in
    the order it is written, the product before the quotient:
    [Math.round(100 * c / n)], and 0 for an empty collection. *)
Definition round_product_first (c n : nat) : number :=
  Math_round
    (match n with
     | O => of_nat 0
     | S _ => div (mul (of_nat 100) (of_nat c)) (of_nat n)
     end).

(** On every count out of every total below [bound], the product-first
    evaluation is the exact rounding. *)
Definition product_first_exact_below (bound : nat) : bool :=
  forallb (fun n =>
    forallb (fun c => number_eqb (round_product_first c n) (of_Z (exact_pct c n)))
            (seq 0 (S n)))
    (seq 0 bound).

(** [100 * c / n] lies exactly half way between two integers. *)
Definition tie (c n : nat) : bool :=
  ((200 * Z.of_nat c + Z.of_nat n) mod (2 * Z.of_nat n) =? 0)%Z.

(** On every count out of every total below [bound], [pct] is the exact
    rounding, or one less at a tie. *)
Definition pct_close_below (bound : nat) : bool :=
  forallb (fun n =>
    forallb (fun c =>
      number_eqb (pct c n) (of_Z (exact_pct c n))
      || (tie c n && number_eqb (pct c n) (of_Z (exact_pct c n - 1))))
            (seq 0 (S n)))
    (seq 0 bound).

Fixpoint count_char (d : ascii) (s : string) : nat :=
  match s with
  | EmptyString => 0
  | String c s' => (if Ascii.eqb c d then 1 else 0) + count_char d s'
  end.

(** The filter configuration the page starts with. *)
Definition initial_filters : filters_t :=
  {| gender := "all"; allergy := "all"; access := "all" |}.

(** The number on the Open Incidents card: [metrics] reads the loaded
    [incidents], not [incidentRows]. *)
Definition openIncidents_shown
    (hosts guests matches : list obj) (st : ledger) : nat :=
  openIncidents (metrics hosts guests (incidents st) matches).

(** The record whose value for each key of [ks] is the escaped value of
    [r]: what a row of the export holds, read as a record. *)
Definition quoted (ks : list string) (r : obj) : obj :=
  map (fun k => (k, esc (obj_get k r))) ks.

(** The text has a character that is not a separator of the allergy
    list (semicolon, comma, white space). *)
Fixpoint has_token (s : string) : bool :=
  match s with
  | EmptyString => false
  | String c s' => negb (is_sep c) || has_token s'
  end.

(** * Properties *)

(** ** Strings *)

Section StringFacts.

Lemma startsWith_spec (s p : string) :
  startsWith s p = true <-> exists t, s = (p ++ t)%string.
Proof.
  revert s; induction p as [|b p IH]; intros s; simpl.
  - split; [intros _; now exists s | reflexivity].
  - destruct s as [|a s].
    + split; [discriminate | intros [t Ht]; discriminate].
    + rewrite andb_true_iff, Ascii.eqb_eq, IH. split.
      * intros [-> [t ->]]. now exists t.
      * intros [t Ht]. injection Ht as -> ->. split; [reflexivity | now exists t].
Qed.

Lemma includes_unfold (s x : string) :
  includes s x =
  startsWith s x || match s with EmptyString => false | String _ s' => includes s' x end.
Proof. destruct s; reflexivity. Qed.

Lemma includes_spec (s x : string) :
  includes s x = true <-> exists a b, s = (a ++ x ++ b)%string.
Proof.
  induction s as [|c s IH]; rewrite includes_unfold, orb_true_iff, startsWith_spec.
  - split.
    + intros [[t Ht] | H]; [| discriminate]. now exists EmptyString, t.
    + intros [a [b H]]. left. destruct a; [now exists b | discriminate].
  - rewrite IH. split.
    + intros [[t Ht] | [a [b H]]].
      * now exists EmptyString, t.
      * exists (String c a), b. simpl. now rewrite H.
    + intros [a [b H]]. destruct a as [|c' a]; simpl in H.
      * left. now exists b.
      * right. injection H as _ H. now exists a, b.
Qed.

Lemma append_assoc (a b c : string) : ((a ++ b) ++ c = a ++ (b ++ c))%string.
Proof. induction a; simpl; congruence. Qed.

Lemma append_nil_r (a : string) : (a ++ EmptyString)%string = a.
Proof. induction a; simpl; congruence. Qed.

(** Containment is transitive: what contains [x] contains every piece of [x]. *)
Lemma includes_trans (s x y : string) :
  includes s x = true -> includes x y = true -> includes s y = true.
Proof.
  rewrite !includes_spec. intros [a [b ->]] [a' [b' ->]].
  exists (a ++ a')%string, (b' ++ b)%string.
  now rewrite !append_assoc.
Qed.

End StringFacts.

(** ** Stable sorting *)

Section SortFacts.
Context {A : Type} (cmp : A -> A -> Z).

Lemma insert_perm (x : A) (l : list A) : Permutation (insert cmp x l) (x :: l).
Proof.
  induction l as [|y l IH]; simpl; [reflexivity |].
  destruct (cmp x y <=? 0)%Z; [reflexivity |].
  rewrite IH. apply perm_swap.
Qed.

Lemma sort_perm (l : list A) : Permutation (sort cmp l) l.
Proof.
  induction l as [|x l IH]; simpl; [reflexivity |].
  rewrite insert_perm. now constructor.
Qed.

Lemma sort_length (l : list A) : List.length (sort cmp l) = List.length l.
Proof. apply Permutation_length, sort_perm. Qed.

(** An element the predicate accepts lands in front of the accepted ones
    when everything it jumps over is rejected. *)
Lemma filter_insert_in (p : A -> bool) (x : A) (l : list A) :
  p x = true ->
  (forall y, (0 < cmp x y)%Z -> p y = false) ->
  filter p (insert cmp x l) = x :: filter p l.
Proof.
  intros Hx Hskip. induction l as [|y l IH]; simpl.
  - now rewrite Hx.
  - destruct (Z.leb_spec (cmp x y) 0) as [Hle | Hgt]; simpl.
    + now rewrite Hx.
    + rewrite (Hskip y Hgt). exact IH.
Qed.

Lemma filter_insert_out (p : A -> bool) (x : A) (l : list A) :
  p x = false -> filter p (insert cmp x l) = filter p l.
Proof.
  intros Hx. induction l as [|y l IH]; simpl.
  - now rewrite Hx.
  - destruct (cmp x y <=? 0)%Z; simpl.
    + now rewrite Hx.
    + now rewrite IH.
Qed.
End SortFacts.

Lemma insert_by_score_sorted (x : suggestion) (l : list suggestion) :
  StronglySorted ge_score l -> StronglySorted ge_score (insert by_score x l).
Proof.
  induction 1 as [|y l Hs IH Hall]; simpl.
  - repeat constructor.
  - unfold by_score at 1.
    destruct (Z.leb_spec (score y - score x) 0) as [Hle | Hgt].
    + constructor; [now constructor |].
      constructor; [unfold ge_score; lia |].
      eapply Forall_impl; [| exact Hall]. unfold ge_score. intros; lia.
    + constructor; [exact IH |].
      eapply Permutation_Forall; [symmetry; apply insert_perm |].
      constructor; [unfold ge_score; lia | exact Hall].
Qed.

Lemma sort_by_score_sorted (l : list suggestion) :
  StronglySorted ge_score (sort by_score l).
Proof.
  induction l as [|x l IH]; simpl; [constructor |].
  now apply insert_by_score_sorted.
Qed.

(** Suggestions of one score keep the order they were pushed in. *)
Lemma sort_by_score_stable (z : Z) (l : list suggestion) :
  filter (fun s => (score s =? z)%Z) (sort by_score l)
  = filter (fun s => (score s =? z)%Z) l.
Proof.
  induction l as [|x l IH]; simpl; [reflexivity |].
  destruct (Z.eqb_spec (score x) z) as [Heq | Hne].
  - rewrite filter_insert_in, IH; [reflexivity | now apply Z.eqb_eq |].
    intros y Hy. unfold by_score in Hy. apply Z.eqb_neq. lia.
  - rewrite filter_insert_out, IH; [reflexivity | now apply Z.eqb_neq].
Qed.

(** ** Matching engine *)

Lemma score_pair_range (g h : obj) :
  genderOk g h = true -> (10 <= fst (score_pair g h) <= 20)%Z.
Proof.
  intros Hg. unfold score_pair. rewrite Hg.
  destruct (allergyOk g h), (accessOk g h), (bothConfirmed g h); simpl; lia.
Qed.

Lemma visit_pass (g h : obj) (out : list suggestion) :
  genderOk g h = true -> visit g h out = out ++ [suggestion_of (g, h)].
Proof.
  intros Hg. unfold visit. rewrite Hg. simpl negb. cbv iota.
  pose proof (score_pair_range g h Hg) as Hr.
  destruct (Z.ltb_spec 0 (fst (score_pair g h))); [reflexivity | lia].
Qed.

Lemma visit_fail (g h : obj) (out : list suggestion) :
  genderOk g h = false -> visit g h out = out.
Proof. intros Hg. unfold visit. now rewrite Hg. Qed.

Lemma visit_hosts (g : obj) (hosts : list obj) (out : list suggestion) :
  fold_left (fun out h => visit g h out) hosts out
  = out ++ map suggestion_of (filter qualifies (map (pair g) hosts)).
Proof.
  revert out. induction hosts as [|h hosts IH]; intros out; simpl.
  - now rewrite app_nil_r.
  - rewrite IH. unfold qualifies at 2. simpl fst; simpl snd.
    destruct (genderOk g h) eqn:Hg.
    + rewrite (visit_pass g h out Hg). simpl. now rewrite <- app_assoc.
    + now rewrite (visit_fail g h out Hg).
Qed.

Lemma visit_guests (guests hosts : list obj) (out : list suggestion) :
  fold_left (fun out g => fold_left (fun out h => visit g h out) hosts out) guests out
  = out ++ map suggestion_of (qualifying guests hosts).
Proof.
  unfold qualifying. revert out.
  induction guests as [|g guests IH]; intros out; simpl.
  - now rewrite app_nil_r.
  - rewrite IH, visit_hosts, filter_app, map_app. now rewrite <- app_assoc.
Qed.

Lemma collect_spec (guests hosts : list obj) :
  collect guests hosts = map suggestion_of (qualifying guests hosts).
Proof. unfold collect. now rewrite visit_guests. Qed.

Lemma qualifying_length (guests hosts : list obj) :
  List.length (qualifying guests hosts) <= List.length guests * List.length hosts.
Proof.
  unfold qualifying. rewrite <- length_prod. apply filter_length_le.
Qed.

(** C1. The suggestion list is the first 50 of a list [ranked] that is a
    rearrangement of the suggestions of all qualifying pairs, is in
    descending order of score, and lists the suggestions of any one score in
    the order the pairs are enumerated (guests outermost, hosts innermost);
    its length is at most [min 50 (|guests| * |hosts|)]. *)
Theorem suggestions_ranked_top50 (hosts guests : list obj) :
  let pairs := map suggestion_of (qualifying guests hosts) in
  exists ranked,
    suggestions hosts guests = firstn 50 ranked
    /\ Permutation ranked pairs
    /\ StronglySorted ge_score ranked
    /\ (forall z, filter (fun s => (score s =? z)%Z) ranked
                  = filter (fun s => (score s =? z)%Z) pairs)
    /\ List.length (suggestions hosts guests)
       <= Nat.min 50 (List.length guests * List.length hosts).
Proof.
  intros pairs. exists (sort by_score pairs).
  unfold suggestions. rewrite collect_spec. fold pairs.
  split; [reflexivity |].
  split; [apply sort_perm |].
  split; [apply sort_by_score_sorted |].
  split; [intros z; apply sort_by_score_stable |].
  rewrite length_firstn, sort_length. unfold pairs. rewrite length_map.
  pose proof (qualifying_length guests hosts). lia.
Qed.

Lemma suggestions_single_pass (g h : obj) :
  genderOk g h = true -> suggestions [h] [g] = [suggestion_of (g, h)].
Proof.
  intros Hg. unfold suggestions, collect. simpl fold_left.
  now rewrite (visit_pass g h [] Hg).
Qed.

Lemma suggestions_single_fail (g h : obj) :
  genderOk g h = false -> suggestions [h] [g] = [].
Proof.
  intros Hg. unfold suggestions, collect. simpl fold_left.
  now rewrite (visit_fail g h [] Hg).
Qed.

(** C2. The example host and guest of the specification give one suggestion,
    of score 20, with the four reasons in the order gender, allergies,
    accessibility, confirmation. *)
Theorem scoring_example :
  exists s,
    suggestions [example_host] [example_guest] = [s]
    /\ score s = 20%Z
    /\ reasons s = [ "Gender comfort ok"; "Allergies compatible";
                     "Accessibility"; "Both confirmed" ].
Proof.
  eexists. split; [vm_compute; reflexivity |]. split; reflexivity.
Qed.

(** C3. A host whose [gender_comfort] is "female" is not paired with a guest
    whose [gender] is "nonbinary-example": the callback leaves [out] as it
    is and no suggestion is produced; with a guest whose [gender] is
    "Female" the gate passes and the pair yields its suggestion. *)
Theorem gender_gate_female_host (h gn gf : obj)
    (Hh : field "gender_comfort" h = "female")
    (Hn : field "gender" gn = "nonbinary-example")
    (Hf : field "gender" gf = "Female") :
  (genderOk gn h = false
   /\ (forall out, visit gn h out = out)
   /\ suggestions [h] [gn] = [])
  /\ (genderOk gf h = true
      /\ suggestions [h] [gf] = [suggestion_of (gf, h)])
  /\ suggestions [h] [gn; gf] = [suggestion_of (gf, h)].
Proof.
  assert (Gn : genderOk gn h = false)
    by (unfold genderOk; rewrite Hh, Hn; reflexivity).
  assert (Gf : genderOk gf h = true)
    by (unfold genderOk; rewrite Hh, Hf; reflexivity).
  repeat split.
  - exact Gn.
  - intros out. now apply visit_fail.
  - now apply suggestions_single_fail.
  - exact Gf.
  - now apply suggestions_single_pass.
  - unfold suggestions, collect. simpl fold_left.
    rewrite (visit_fail gn h [] Gn). now rewrite (visit_pass gf h [] Gf).
Qed.

Lemma gender_gate_female_host_witness :
  let h := [("id", "h1"); ("gender_comfort", "female")] in
  let gn := [("id", "g1"); ("gender", "nonbinary-example")] in
  let gf := [("id", "g2"); ("gender", "Female")] in
  suggestions [h] [gn] = []
  /\ suggestions [h] [gn; gf] = [suggestion_of (gf, h)].
Proof.
  intros h gn gf.
  destruct (gender_gate_female_host h gn gf eq_refl eq_refl eq_refl)
    as [[_ [_ H1]] [_ H2]].
  split; [exact H1 | exact H2].
Defined.

(** C4. A host whose lower-cased [gender_comfort] contains "female" passes
    the gate with every guest whose lower-cased [gender] starts with "m",
    because "male" is part of "female": the pair is scored, with at least
    the 10 points of the gate, and appears in the suggestion list. *)
Theorem gender_gate_female_admits_m (g h : obj)
    (Hh : includes (toLowerCase (field "gender_comfort" h)) "female" = true)
    (Hg : startsWith (toLowerCase (field "gender" g)) "m" = true) :
  genderOk g h = true
  /\ (forall out, visit g h out = out ++ [suggestion_of (g, h)])
  /\ suggestions [h] [g] = [suggestion_of (g, h)]
  /\ (10 <= score (suggestion_of (g, h)))%Z.
Proof.
  assert (Hm : includes (toLowerCase (field "gender_comfort" h)) "male" = true)
    by (apply (includes_trans _ _ _ Hh); reflexivity).
  assert (G : genderOk g h = true).
  { unfold genderOk. rewrite Hm, Hg. simpl. now rewrite !orb_true_r. }
  repeat split.
  - exact G.
  - intros out. now apply visit_pass.
  - now apply suggestions_single_pass.
  - simpl. apply (score_pair_range g h G).
Qed.

Lemma gender_gate_female_admits_m_witness :
  let h := [("id", "h7"); ("gender_comfort", "Female only")] in
  let g := [("id", "g3"); ("gender", "Male")] in
  genderOk g h = true /\ suggestions [h] [g] = [suggestion_of (g, h)].
Proof.
  intros h g.
  destruct (gender_gate_female_admits_m g h eq_refl eq_refl) as [H1 [_ [H2 _]]].
  split; [exact H1 | exact H2].
Defined.

(** ** Incident ledger: merge order *)

Lemma incidentRows_add (now : string) (fd : form_data) (st : ledger) :
  incidentRows (addIncident now fd st) = incident_row now fd :: incidentRows st.
Proof. reflexivity. Qed.

(** C5. With loaded incidents [X; Y] and nothing added yet, adding A and
    then B gives the merged sequence [B; A; X; Y]; in any state an add puts
    the new incident at the head of the added list, and the merged view is
    the added list followed by the loaded incidents, which an add leaves
    unchanged. *)
Theorem incident_merge_order
    (nowA nowB : string) (fa fb : form_data) (X Y : obj) (st : ledger) :
  incidentRows
    (addIncident nowB fb
       (addIncident nowA fa {| incidents := [X; Y]; addedIncidents := [] |}))
  = [incident_row nowB fb; incident_row nowA fa; X; Y]
  /\ addedIncidents (addIncident nowA fa st)
     = incident_row nowA fa :: addedIncidents st
  /\ incidents (addIncident nowA fa st) = incidents st
  /\ incidentRows st = addedIncidents st ++ incidents st.
Proof. repeat split. Qed.

(** ** Metrics: the confirmed-hosts percentage *)

Lemma number_eqb_eq (x y : number) : number_eqb x y = true -> x = y.
Proof.
  destruct x as [s|s| |s m e], y as [s'|s'| |s' m' e']; simpl;
    try discriminate; try reflexivity.
  - intros H. apply Bool.eqb_prop in H. now subst.
  - intros H. apply Bool.eqb_prop in H. now subst.
  - rewrite !andb_true_iff. intros [[Hs Hm] He].
    apply Bool.eqb_prop in Hs. apply Pos.eqb_eq in Hm. apply Z.eqb_eq in He.
    now subst.
Qed.

Lemma pct_exact_below_40 : pct_exact_below 40 = true.
Proof. vm_compute. reflexivity. Qed.

Lemma pct_small (c n : nat) :
  c <= n -> n < 40 -> pct c n = of_Z (exact_pct c n).
Proof.
  intros Hc Hn. apply number_eqb_eq.
  pose proof pct_exact_below_40 as H. unfold pct_exact_below in H.
  rewrite forallb_forall in H.
  assert (Hin : In n (seq 0 40)) by (apply in_seq; lia).
  specialize (H n Hin). rewrite forallb_forall in H.
  apply H. apply in_seq. lia.
Qed.

(** The figure is not [round(100 * c / n)] for every collection: 23
    confirmed hosts out of 40 is an instance. *)
Lemma hostsConfirmedPct_23_of_40 :
  ~ (forall hosts guests incidents matches : list obj,
       hostsConfirmedPct (metrics hosts guests incidents matches)
       = of_Z (exact_pct (List.length (filter is_yes hosts)) (List.length hosts))).
Proof.
  intros H. specialize (H hosts_23_of_40 [] [] []).
  vm_compute in H. discriminate H.
Qed.

(** C6. The code misses the claim at 23 confirmed hosts out of 40.  [pct]
    divides first: 23/40 is rounded to a double, its product with 100 is
    57.49999999999999 and the page shows 57.  [round(100 * 23 / 40)] is 58,
    and the same formula evaluated in doubles with the product first,
    [Math.round(100 * 23 / 40)], gives 58 too: the 57 comes from the order
    of the two operations in [pct]. *)
Theorem hostsConfirmedPct_misses_tie :
  List.length hosts_23_of_40 = 40
  /\ List.length (filter is_yes hosts_23_of_40) = 23
  /\ hostsConfirmedPct (metrics hosts_23_of_40 [] [] []) = of_Z 57
  /\ exact_pct 23 40 = 58%Z
  /\ round_product_first 23 40 = of_Z 58.
Proof. repeat split; vm_compute; reflexivity. Qed.

Lemma product_first_exact_below_101 : product_first_exact_below 101 = true.
Proof. vm_compute. reflexivity. Qed.

Lemma product_first_exact_below_spec (bound : nat) :
  product_first_exact_below bound = true ->
  forall c n, c <= n -> n < bound ->
    round_product_first c n = of_Z (exact_pct c n).
Proof.
  unfold product_first_exact_below. intros H c n Hc Hn.
  rewrite forallb_forall in H.
  assert (Hin : In n (seq 0 bound)) by (apply in_seq; lia).
  specialize (H n Hin). rewrite forallb_forall in H.
  apply number_eqb_eq, H, in_seq. lia.
Qed.

(** With the product first the formula is the exact rounding for every
    count out of every total up to 100, ties included: what the claim says
    is within reach of double arithmetic. *)
Lemma product_first_exact (c n : nat) :
  c <= n -> n <= 100 -> round_product_first c n = of_Z (exact_pct c n).
Proof.
  intros Hc Hn.
  apply (product_first_exact_below_spec 101 product_first_exact_below_101); lia.
Qed.

(** Below 40 hosts no quotient is rounded across a tie, and the figure of
    the page is the exact rounding: [round(100 * c / n)], where [n] is the
    number of hosts and [c] the number of hosts whose [confirmed] field,
    lower-cased, is "yes"; a host without the field is not counted; an
    empty collection gives 0. *)
Theorem hostsConfirmedPct_exact_below_40
    (hosts guests incidents matches : list obj)
    (Hn : List.length hosts < 40) :
  let n := List.length hosts in
  let c := List.length (filter is_yes hosts) in
  hostsConfirmedPct (metrics hosts guests incidents matches)
  = of_Z (exact_pct c n)
  /\ (n = 0 -> hostsConfirmedPct (metrics hosts guests incidents matches) = of_Z 0)
  /\ (forall h, obj_get "confirmed" h = None -> is_yes h = false).
Proof.
  intros n c.
  assert (E : hostsConfirmedPct (metrics hosts guests incidents matches)
              = of_Z (exact_pct c n)).
  { simpl. apply pct_small; [apply filter_length_le | exact Hn]. }
  split; [exact E |]. split.
  - intros Hz. rewrite E. subst c. destruct hosts; [reflexivity | discriminate].
  - intros h Hh. unfold is_yes, field. now rewrite Hh.
Qed.

(** The four hosts of the specification's example: 50. *)
Lemma hostsConfirmedPct_exact_below_40_witness :
  hostsConfirmedPct
    (metrics [host_confirmed "Yes"; host_confirmed "yes"; host_confirmed "no";
              host_confirmed EmptyString] [] [] [])
  = of_Z 50.
Proof.
  refine (proj1 (hostsConfirmedPct_exact_below_40
                   [host_confirmed "Yes"; host_confirmed "yes";
                    host_confirmed "no"; host_confirmed EmptyString]
                   [] [] [] _)).
  simpl. lia.
Defined.

(** ** Filter engine *)

Lemma truthy_toLowerCase (s : string) : truthy (toLowerCase s) = truthy s.
Proof. now destruct s. Qed.

(** C8. A record of the active class is in the filtered set exactly when it
    passes the gender, allergy, accessibility and name predicates together;
    failing any one of them excludes it whatever the other three say.  With
    the values the page's selects offer, each predicate is the value "all"
    or case-insensitive containment in the record's field, a missing field
    read as the empty string; the name predicate is an empty search string
    or case-insensitive containment in [name]. *)
Theorem filter_conjunction
    (tab : string) (hosts guests : list obj) (f : filters_t) (search : string)
    (r : obj) :
  let src := if String.eqb tab "hosts" then hosts else guests in
  (In r (filteredRows tab hosts guests f search)
   <-> In r src
       /\ okG f r = true /\ okA f r = true /\ okAc f r = true
       /\ okQ search r = true)
  /\ (okG f r = false \/ okA f r = false \/ okAc f r = false
      \/ okQ search r = false
      -> ~ In r (filteredRows tab hosts guests f search))
  /\ (forall g a x,
        okG (selected g a x) r
        = (String.eqb (gender_value g) "all"
           || contains_ci (gender_like r) (gender_value g))
        /\ okA (selected g a x) r
           = (String.eqb (allergy_value a) "all"
              || contains_ci (field "allergies" r) (allergy_value a))
        /\ okAc (selected g a x) r
           = (String.eqb (access_value x) "all"
              || contains_ci (field "accessibility" r) (access_value x)))
  /\ okQ search r
     = (negb (truthy search) || contains_ci (field "name" r) search).
Proof.
  intros src.
  assert (Hiff : In r (filteredRows tab hosts guests f search)
                 <-> In r src
                     /\ okG f r = true /\ okA f r = true /\ okAc f r = true
                     /\ okQ search r = true).
  { unfold filteredRows. fold src. rewrite filter_In, !andb_true_iff. tauto. }
  split; [exact Hiff |]. split; [| split].
  - intros Hfail Hin. apply Hiff in Hin.
    destruct Hin as [_ [H1 [H2 [H3 H4]]]].
    destruct Hfail as [H | [H | [H | H]]]; congruence.
  - intros g a x. repeat split.
    + now destruct g.
    + now destruct a.
    + now destruct x.
  - unfold okQ, contains_ci. now rewrite truthy_toLowerCase.
Qed.

(** A host that matches the gender, accessibility and name filters but not
    the allergy filter is left out. *)
Lemma filter_conjunction_witness :
  let r := [ ("name", "Ada"); ("gender_comfort", "Female");
             ("allergies", "gluten"); ("accessibility", "Elevator") ] in
  ~ In r (filteredRows "hosts" [r] [] (selected G_female A_peanuts X_elevator) "ad").
Proof.
  intros r.
  refine (proj1 (proj2 (filter_conjunction "hosts" [r] []
                          (selected G_female A_peanuts X_elevator) "ad" r)) _).
  right. left. reflexivity.
Defined.

(** ** Incident ledger: export *)

Lemma undouble_double_quotes (s : string) : undouble (double_quotes s) = s.
Proof.
  induction s as [|c s IH]; [reflexivity |].
  simpl double_quotes. destruct (Ascii.eqb_spec c quote) as [-> | Hc].
  - simpl. now rewrite IH.
  - cbn [undouble]. apply Ascii.eqb_neq in Hc. rewrite Hc. now rewrite IH.
Qed.

Lemma double_quotes_length (s : string) :
  String.length (double_quotes s) = String.length s + count_quotes s.
Proof.
  induction s as [|c s IH]; [reflexivity |].
  simpl. destruct (Ascii.eqb c quote); simpl; rewrite IH; lia.
Qed.

Lemma double_quotes_count (s : string) :
  count_quotes (double_quotes s) = 2 * count_quotes s.
Proof.
  induction s as [|c s IH]; [reflexivity |].
  simpl. destruct (Ascii.eqb c quote) eqn:E; simpl.
  - rewrite IH. lia.
  - rewrite E, IH. lia.
Qed.

(** C10. With an empty merged sequence the export returns before creating
    anything.  Otherwise the text is a list of lines joined by line feeds:
    the comma-joined keys of the first record, then for every record of the
    merged sequence, in order, the comma-joined escaped values of those
    keys.  An escaped value is the value (empty when the record lacks the
    key) between two double quotes with every double quote inside it
    written twice, so that reading pairs back as single quotes returns the
    value. *)
Theorem export_incidents_shape (st : ledger) :
  match incidentRows st with
  | [] => exportIncidents st = None
  | r0 :: _ =>
      exists lines,
        exportIncidents st = Some (join nl lines)
        /\ List.length lines = S (List.length (incidentRows st))
        /\ nth_error lines 0 = Some (join "," (keys r0))
        /\ forall i,
             nth_error lines (S i)
             = option_map
                 (fun r => join "," (map (fun h => esc (obj_get h r)) (keys r0)))
                 (nth_error (incidentRows st) i)
  end
  /\ forall v,
       exists body,
         esc v = String quote (body ++ String quote EmptyString)%string
         /\ undouble body = or_empty v
         /\ String.length body = String.length (or_empty v) + count_quotes (or_empty v)
         /\ count_quotes body = 2 * count_quotes (or_empty v).
Proof.
  split.
  - unfold exportIncidents. destruct (incidentRows st) as [|r0 rest] eqn:E.
    + reflexivity.
    + eexists. split; [reflexivity |]. split; [| split].
      * simpl. now rewrite length_map.
      * reflexivity.
      * intros i.
        change (nth_error ([join "," (keys r0)] ++ ?l) (S i)) with (nth_error l i).
        apply nth_error_map.
  - intros v. exists (double_quotes (or_empty v)). split; [reflexivity |].
    split; [apply undouble_double_quotes |].
    split; [apply double_quotes_length | apply double_quotes_count].
Qed.

(** ** Records: reading after writing *)

Section ObjectFacts.

Lemma obj_get_update (k k' v : string) (o : obj) :
  obj_get k (obj_update k' v o)
  = if String.eqb k k' && obj_has k' o then Some v else obj_get k o.
Proof.
  induction o as [|[k1 v1] o IH]; simpl.
  - now rewrite andb_false_r.
  - unfold obj_has in *. simpl.
    destruct (String.eqb_spec k' k1) as [-> | Hk'].
    + simpl. rewrite andb_true_r. now destruct (String.eqb k k1).
    + simpl. destruct (String.eqb_spec k k1) as [-> | Hk].
      * apply not_eq_sym in Hk'. apply String.eqb_neq in Hk'. now rewrite Hk'.
      * exact IH.
Qed.

Lemma obj_get_insert_index (n : N) (k k' v : string) (o : obj) :
  obj_has k' o = false ->
  obj_get k (obj_insert_index n k' v o)
  = if String.eqb k k' then Some v else obj_get k o.
Proof.
  unfold obj_has. induction o as [|[k1 v1] o IH]; intros Hno; simpl.
  - reflexivity.
  - simpl in Hno. destruct (String.eqb_spec k' k1) as [-> | Hk']; [discriminate |].
    destruct (array_index k1) as [m|]; [destruct (m <? n)%N |]; simpl;
      try reflexivity.
    rewrite (IH Hno).
    destruct (String.eqb_spec k k1) as [-> | Hk]; [| reflexivity].
    apply not_eq_sym in Hk'. apply String.eqb_neq in Hk'. now rewrite Hk'.
Qed.

Lemma obj_get_append (k k' v : string) (o : obj) :
  obj_has k' o = false ->
  obj_get k (o ++ [(k', v)])
  = if String.eqb k k' then Some v else obj_get k o.
Proof.
  unfold obj_has. induction o as [|[k1 v1] o IH]; intros Hno; simpl.
  - reflexivity.
  - simpl in Hno. destruct (String.eqb_spec k' k1) as [-> | Hk']; [discriminate |].
    rewrite (IH Hno).
    destruct (String.eqb_spec k k1) as [-> | Hk]; [| reflexivity].
    apply not_eq_sym in Hk'. apply String.eqb_neq in Hk'. now rewrite Hk'.
Qed.

(** Reading [k] after [o[k'] = v]. *)
Lemma obj_get_set (k k' v : string) (o : obj) :
  obj_get k (obj_set k' v o)
  = if String.eqb k k' && negb (String.eqb k' "__proto__")
    then Some v else obj_get k o.
Proof.
  unfold obj_set. destruct (String.eqb k' "__proto__"); simpl.
  - now rewrite andb_false_r.
  - rewrite andb_true_r. destruct (obj_has k' o) eqn:Hhas.
    + rewrite obj_get_update, Hhas. now rewrite andb_true_r.
    + destruct (array_index k') as [n|].
      * now apply obj_get_insert_index.
      * now apply obj_get_append.
Qed.

Lemma obj_get_keys (k : string) (o : obj) :
  obj_get k o <> None <-> In k (keys o).
Proof.
  induction o as [|[k1 v1] o IH]; simpl.
  - tauto.
  - destruct (String.eqb_spec k k1) as [-> | Hk].
    + split; [now left | discriminate].
    + rewrite IH. split; [now right | intros [H | H]; [congruence | exact H]].
Qed.

End ObjectFacts.

(** ** Tabular decoder: rows *)

Lemma fill_row_other (k : string) (hs cols : list string) (i : nat) (row : obj) :
  (forall h, In h hs -> trim h <> k) ->
  obj_get k (fill_row i hs cols row) = obj_get k row.
Proof.
  revert i row. induction hs as [|h hs IH]; intros i row Hne; simpl.
  - reflexivity.
  - rewrite IH by (intros h' Hh'; apply Hne; now right).
    rewrite obj_get_set.
    destruct (String.eqb_spec k (trim h)) as [-> | _]; [| reflexivity].
    exfalso. apply (Hne h); [now left | reflexivity].
Qed.

(** The header at position [i] decides its key when the key is not
    [__proto__] and no later header has the same trimmed name. *)
Lemma fill_row_at (hs cols : list string) (i0 i : nat) (row : obj) :
  i < List.length hs ->
  trim (nth i hs EmptyString) <> proto ->
  (forall j, i < j < List.length hs ->
             trim (nth j hs EmptyString) <> trim (nth i hs EmptyString)) ->
  obj_get (trim (nth i hs EmptyString)) (fill_row i0 hs cols row)
  = Some (trim (nth (i0 + i) cols EmptyString)).
Proof.
  revert i0 i row. induction hs as [|h hs IH]; intros i0 i row Hi Hp Hlast.
  - simpl in Hi. lia.
  - destruct i as [|i]; simpl in *.
    + rewrite fill_row_other.
      * rewrite obj_get_set, String.eqb_refl. simpl.
        apply String.eqb_neq in Hp. unfold proto in Hp. rewrite Hp. simpl.
        now rewrite Nat.add_0_r.
      * intros h' Hh'. destruct (In_nth _ _ EmptyString Hh') as [j [Hj <-]].
        apply (Hlast (S j)). lia.
    + replace (i0 + S i) with (S i0 + i) by lia.
      apply IH; [lia | exact Hp |].
      intros j Hj. apply (Hlast (S j)). lia.
Qed.

Lemma fill_row_keys (k : string) (hs cols : list string) (i : nat) (row : obj) :
  obj_get k (fill_row i hs cols row) <> None ->
  In k (map trim hs) \/ obj_get k row <> None.
Proof.
  revert i row. induction hs as [|h hs IH]; intros i row; simpl.
  - now right.
  - intros H. destruct (IH _ _ H) as [Hin | Hget]; [left; now right |].
    rewrite obj_get_set in Hget.
    destruct (String.eqb_spec k (trim h)) as [-> | _]; simpl in Hget.
    + left. now left.
    + now right.
Qed.

Lemma fill_row_proto (hs cols : list string) (i : nat) (row : obj) :
  obj_get proto row = None -> obj_get proto (fill_row i hs cols row) = None.
Proof.
  revert i row. induction hs as [|h hs IH]; intros i row Hrow; simpl; [exact Hrow |].
  apply IH. rewrite obj_get_set.
  destruct (String.eqb_spec proto (trim h)) as [<- | _]; [| exact Hrow].
  simpl. exact Hrow.
Qed.

Lemma split_on_cons (d : ascii) (cur s : string) :
  exists l rest, split_on d cur s = l :: rest.
Proof.
  revert cur. induction s as [|c s IH]; intros cur; simpl.
  - now exists cur, [].
  - destruct (Ascii.eqb c d); [now exists cur, (split_on d EmptyString s) | apply IH].
Qed.

Lemma split_lines_from_cons (cur s : string) :
  exists l rest, split_lines_from cur s = l :: rest.
Proof.
  revert cur. induction s as [|c s IH]; intros cur.
  - now exists cur, [].
  - simpl. destruct (Ascii.eqb c LF).
    + now exists cur, (split_lines_from EmptyString s).
    + destruct s as [|c' s'].
      * apply IH.
      * destruct (Ascii.eqb c CR && Ascii.eqb c' LF).
        -- now exists cur, (split_lines_from EmptyString s').
        -- apply IH.
Qed.

(** C9, as stated, fails: with the header [a,a] the first value of the row
    [1,2] is not the value of [a]; the second one is. *)
Lemma parseCSV_duplicate_header :
  ~ (forall (headers : list string) (l : string) (i : nat),
       i < List.length headers ->
       obj_get (trim (nth i headers EmptyString)) (parse_line headers l)
       = Some (trim (nth i (split_comma l) EmptyString)))
  /\ parseCSV ("a,a" ++ nl ++ "1,2")%string = [[("a", "2")]].
Proof.
  split; [| reflexivity].
  intros H. specialize (H ["a"; "a"] "1,2" 0 ltac:(simpl; lia)).
  vm_compute in H. discriminate H.
Qed.

(** C9, amended. [parseCSV] is a total function.  Text that is empty after
    trimming gives no rows; otherwise the first line is the header and
    every further line gives one row.  In the row of a line, the trimmed
    name of header [i] holds the trimmed value [i] of the line whenever the
    name is not [__proto__] and no later header has the same trimmed name
    (of headers that share a name, the last one decides); the value is the
    empty string when the line has no value [i]; and the row has no
    property other than trimmed header names, so values beyond the headers
    are dropped. *)
Theorem parseCSV_rows (text : string) (headers : list string) (l : string) :
  (trim text = EmptyString -> parseCSV text = [])
  /\ (exists l0 rest,
        split_lines (trim text) = l0 :: rest
        /\ parseCSV text = map (parse_line (split_comma l0)) rest)
  /\ (forall i,
        i < List.length headers ->
        trim (nth i headers EmptyString) <> proto ->
        (forall j, i < j < List.length headers ->
                   trim (nth j headers EmptyString)
                   <> trim (nth i headers EmptyString)) ->
        obj_get (trim (nth i headers EmptyString)) (parse_line headers l)
        = Some (trim (nth i (split_comma l) EmptyString))
        /\ (List.length (split_comma l) <= i ->
            obj_get (trim (nth i headers EmptyString)) (parse_line headers l)
            = Some EmptyString))
  /\ (forall k, obj_get k (parse_line headers l) <> None ->
                In k (map trim headers) /\ k <> proto).
Proof.
  split; [| split; [| split]].
  - intros H. unfold parseCSV. now rewrite H.
  - unfold parseCSV, split_lines.
    destruct (split_lines_from_cons EmptyString (trim text)) as [l0 [rest E]].
    exists l0, rest. now rewrite E.
  - intros i Hi Hp Hlast.
    assert (E := fill_row_at headers (split_comma l) 0 i [] Hi Hp Hlast).
    split; [exact E |].
    intros Hshort. unfold parse_line. rewrite E. simpl.
    now rewrite nth_overflow.
  - intros k Hk. split.
    + destruct (fill_row_keys _ _ _ _ _ Hk) as [H | H]; [exact H | now elim H].
    + intros ->. apply Hk. now apply fill_row_proto.
Qed.

Lemma parseCSV_rows_witness :
  let text := ("id, name ,name,__proto__" ++ nl ++ " 7 ,x, Ada ,z,extra" ++ nl ++ "8")%string in
  parseCSV text = [ [("id", "7"); ("name", "Ada")]; [("id", "8"); ("name", EmptyString)] ]
  /\ obj_get "name" (parse_line ["id"; " name "; "name"; "__proto__"] "8")
     = Some EmptyString.
Proof.
  intros text. split; [reflexivity |].
  destruct (parseCSV_rows text ["id"; " name "; "name"; "__proto__"] "8")
    as [_ [_ [H _]]].
  refine (proj2 (H 2 _ _ _) _).
  - simpl. lia.
  - vm_compute. discriminate.
  - intros j Hj. simpl in Hj. assert (j = 3) by lia. subst j.
    vm_compute. discriminate.
  - vm_compute. lia.
Defined.

(** ** Trimming, joining and splitting *)

Section TrimFacts.

Lemma trimStart_length (s : string) :
  String.length (trimStart s) <= String.length s.
Proof.
  induction s as [|c s IH]; simpl; [lia |].
  destruct (is_space c); simpl; lia.
Qed.

Lemma trimEnd_length (s : string) :
  String.length (trimEnd s) <= String.length s.
Proof.
  induction s as [|c s IH]; simpl; [lia |].
  destruct (trimEnd s); [destruct (is_space c) |]; simpl in *; lia.
Qed.

Lemma trimStart_head (c : ascii) (s : string) :
  trimStart (String c s) = String c s -> is_space c = false.
Proof.
  simpl. destruct (is_space c); [| reflexivity].
  intros H. pose proof (trimStart_length s) as L. rewrite H in L. simpl in L. lia.
Qed.

Lemma trimStart_fix (s : string) :
  String.length (trimStart s) = String.length s -> trimStart s = s.
Proof.
  destruct s as [|c s]; simpl; [reflexivity |].
  destruct (is_space c); [| reflexivity].
  intros H. pose proof (trimStart_length s). lia.
Qed.

Lemma trimEnd_fix (s : string) :
  String.length (trimEnd s) = String.length s -> trimEnd s = s.
Proof.
  induction s as [|c s IH]; simpl; [reflexivity |].
  pose proof (trimEnd_length s) as L.
  destruct (trimEnd s) as [|c' t] eqn:E.
  - destruct (is_space c); simpl; intros H; [lia |].
    destruct s; [reflexivity | simpl in H; lia].
  - simpl. intros H. f_equal. apply IH. simpl. lia.
Qed.

Lemma trim_fix (s : string) :
  trim s = s -> trimStart s = s /\ trimEnd s = s.
Proof.
  unfold trim. intros H.
  pose proof (trimEnd_length (trimStart s)) as L1.
  pose proof (trimStart_length s) as L2.
  rewrite H in L1.
  assert (E : trimStart s = s) by (apply trimStart_fix; lia).
  split; [exact E | now rewrite E in H].
Qed.

Lemma trimEnd_tail (c : ascii) (s : string) :
  trimEnd (String c s) = String c s -> s <> EmptyString -> trimEnd s = s.
Proof.
  simpl. destruct (trimEnd s) as [|c' t].
  - destruct (is_space c); intros H Hs; [discriminate |].
    injection H as H. now subst s.
  - intros H _. now injection H.
Qed.

Lemma trimEnd_single (c : ascii) :
  trimEnd (String c EmptyString) = String c EmptyString -> is_space c = false.
Proof. simpl. now destruct (is_space c). Qed.

Lemma trimStart_app_l (s t : string) :
  s <> EmptyString -> trimStart s = s -> trimStart (s ++ t) = (s ++ t)%string.
Proof.
  destruct s as [|c s]; [congruence |]. intros _ H.
  apply trimStart_head in H. simpl. now rewrite H.
Qed.

Lemma trimEnd_app_r (s t : string) :
  t <> EmptyString -> trimEnd t = t -> trimEnd (s ++ t) = (s ++ t)%string.
Proof.
  intros Ht H. induction s as [|c s IH]; simpl; [exact H |].
  rewrite IH. destruct (s ++ t)%string eqn:E; [| reflexivity].
  destruct s; simpl in E; [congruence | discriminate].
Qed.

Lemma has_char_app (d : ascii) (s t : string) :
  has_char d (s ++ t) = has_char d s || has_char d t.
Proof.
  induction s as [|c s IH]; simpl; [reflexivity |].
  now rewrite IH, orb_assoc.
Qed.

End TrimFacts.

Section SplitFacts.

Lemma snoc_append (cur : string) (c : ascii) (s : string) :
  (snoc cur c ++ s = cur ++ String c s)%string.
Proof. unfold snoc. now rewrite append_assoc. Qed.

Lemma split_on_last (d : ascii) (v cur : string) :
  has_char d v = false -> split_on d cur v = [(cur ++ v)%string].
Proof.
  revert cur. induction v as [|c v IH]; intros cur; simpl.
  - now rewrite append_nil_r.
  - rewrite orb_false_iff. intros [Hc Hv]. rewrite Hc.
    now rewrite IH, snoc_append.
Qed.

Lemma split_on_piece (d : ascii) (v cur t : string) :
  has_char d v = false ->
  split_on d cur (v ++ String d t) = (cur ++ v)%string :: split_on d EmptyString t.
Proof.
  revert cur. induction v as [|c v IH]; intros cur; simpl.
  - intros _. now rewrite Ascii.eqb_refl, append_nil_r.
  - rewrite orb_false_iff. intros [Hc Hv]. rewrite Hc.
    now rewrite IH, snoc_append.
Qed.

Lemma split_comma_join (items : list string) :
  items <> [] ->
  Forall (fun v => has_char comma v = false) items ->
  split_comma (join "," items) = items.
Proof.
  unfold split_comma. induction items as [|x items IH]; [congruence |].
  intros _ Hall. inversion Hall as [|? ? Hx Hrest]; subst.
  destruct items as [|y items].
  - simpl. now apply split_on_last.
  - change (join "," (x :: y :: items))
      with (x ++ String comma (join "," (y :: items)))%string.
    rewrite split_on_piece by exact Hx.
    now rewrite IH.
Qed.

Lemma split_lines_from_last (l cur : string) :
  has_char LF l = false -> split_lines_from cur l = [(cur ++ l)%string].
Proof.
  revert cur. induction l as [|c l IH]; intros cur.
  - intros _. simpl. now rewrite append_nil_r.
  - simpl has_char. rewrite orb_false_iff. intros [Hc Hl].
    simpl split_lines_from. rewrite Hc.
    destruct l as [|c' l'].
    + rewrite IH by reflexivity. now rewrite snoc_append.
    + simpl in Hl. apply orb_false_iff in Hl as [Hc' Hl'].
      rewrite Hc', andb_false_r.
      rewrite IH by (simpl; now rewrite Hc', Hl').
      now rewrite snoc_append.
Qed.

Lemma is_space_CR (c : ascii) : is_space c = false -> Ascii.eqb c CR = false.
Proof.
  intros H. destruct (Ascii.eqb_spec c CR) as [-> | ]; [discriminate H | reflexivity].
Qed.

Lemma split_lines_from_step (cur : string) (c : ascii) (s' : string) :
  split_lines_from cur (String c s')
  = if Ascii.eqb c LF then cur :: split_lines_from EmptyString s'
    else
      match s' with
      | String c' s'' =>
          if Ascii.eqb c CR && Ascii.eqb c' LF
          then cur :: split_lines_from EmptyString s''
          else split_lines_from (snoc cur c) s'
      | EmptyString => split_lines_from (snoc cur c) s'
      end.
Proof. reflexivity. Qed.

Lemma split_lines_from_line (l cur t : string) :
  has_char LF l = false -> trimEnd l = l ->
  split_lines_from cur (l ++ String LF t)
  = (cur ++ l)%string :: split_lines_from EmptyString t.
Proof.
  revert cur. induction l as [|c l IH]; intros cur.
  - intros _ _. simpl. now rewrite append_nil_r.
  - simpl has_char. rewrite orb_false_iff. intros [Hc Hl] Htrim.
    destruct l as [|c' l'].
    + assert (Hcr : Ascii.eqb c CR = false)
        by (apply is_space_CR, trimEnd_single, Htrim).
      cbn [append]. rewrite split_lines_from_step, Hc, Hcr. cbn [andb].
      rewrite split_lines_from_step, Ascii.eqb_refl. reflexivity.
    + assert (Hc' : Ascii.eqb c' LF = false)
        by (simpl in Hl; now apply orb_false_iff in Hl).
      assert (Ht' : trimEnd (String c' l') = String c' l')
        by (apply (trimEnd_tail c); [exact Htrim | discriminate]).
      specialize (IH (snoc cur c) Hl Ht').
      cbn [append] in IH |- *.
      rewrite split_lines_from_step, Hc, Hc', andb_false_r.
      rewrite IH. f_equal. unfold snoc. now rewrite append_assoc.
Qed.

Lemma split_lines_join (ls : list string) :
  ls <> [] ->
  Forall (fun l => has_char LF l = false /\ trimEnd l = l) ls ->
  split_lines (join nl ls) = ls.
Proof.
  unfold split_lines. induction ls as [|x ls IH]; [congruence |].
  intros _ Hall. inversion Hall as [|? ? [Hx Hx'] Hrest]; subst.
  destruct ls as [|y ls].
  - simpl. now apply split_lines_from_last.
  - change (join nl (x :: y :: ls))
      with (x ++ String LF (join nl (y :: ls)))%string.
    rewrite split_lines_from_line by assumption.
    now rewrite IH.
Qed.

End SplitFacts.

(** ** Decoder round trip *)

Section JoinFacts.

Lemma join_cons2 (sep x y : string) (l : list string) :
  join sep (x :: y :: l) = (x ++ sep ++ join sep (y :: l))%string.
Proof. reflexivity. Qed.

Lemma join_comma_no_LF (items : list string) :
  Forall plain items -> has_char LF (join "," items) = false.
Proof.
  induction items as [|x items IH]; [reflexivity |].
  intros Hall. inversion Hall as [|? ? [_ [Hx _]] Hrest]; subst.
  destruct items as [|y items]; [exact Hx |].
  rewrite join_cons2, !has_char_app, Hx, (IH Hrest). reflexivity.
Qed.

Lemma join_comma_trimEnd (items : list string) :
  Forall plain items -> trimEnd (join "," items) = join "," items.
Proof.
  induction items as [|x items IH]; [reflexivity |].
  intros Hall. inversion Hall as [|? ? [_ [_ Hx]] Hrest]; subst.
  destruct items as [|y items]; [now apply trim_fix |].
  rewrite join_cons2.
  assert (Ht : trimEnd ("," ++ join "," (y :: items))
               = ("," ++ join "," (y :: items))%string).
  { pose proof (IH Hrest) as Hj.
    destruct (join "," (y :: items)); [reflexivity |].
    apply trimEnd_app_r; [discriminate | exact Hj]. }
  apply trimEnd_app_r; [discriminate | exact Ht].
Qed.

Lemma join_comma_trimStart (items : list string) :
  Forall plain items -> trimStart (join "," items) = join "," items.
Proof.
  destruct items as [|x items]; [reflexivity |].
  intros Hall. inversion Hall as [|? ? [_ [_ Hx]] Hrest]; subst.
  destruct items as [|y items]; [now apply trim_fix |].
  rewrite join_cons2. destruct x as [|c x]; [reflexivity |].
  apply trimStart_app_l; [discriminate | now apply trim_fix].
Qed.

Lemma join_nl_trimEnd (ls : list string) :
  Forall (fun l => trimEnd l = l) ls ->
  last ls EmptyString <> EmptyString ->
  trimEnd (join nl ls) = join nl ls /\ join nl ls <> EmptyString.
Proof.
  induction ls as [|x ls IH]; [simpl; congruence |].
  intros Hall Hlast. inversion Hall as [|? ? Hx Hrest]; subst.
  destruct ls as [|y ls]; [split; assumption |].
  destruct (IH Hrest Hlast) as [Ht Hne].
  rewrite join_cons2.
  assert (Ht' : trimEnd (nl ++ join nl (y :: ls)) = (nl ++ join nl (y :: ls))%string)
    by (apply trimEnd_app_r; assumption).
  split.
  - apply trimEnd_app_r; [discriminate | exact Ht'].
  - destruct x; discriminate.
Qed.

Lemma join_nl_trimStart (x : string) (ls : list string) :
  x <> EmptyString -> trimStart x = x ->
  trimStart (join nl (x :: ls)) = join nl (x :: ls).
Proof.
  intros Hne Hx. destruct ls as [|y ls]; [exact Hx |].
  rewrite join_cons2. now apply trimStart_app_l.
Qed.

Lemma last_map_cons {A B : Type} (f : A -> B) (x : A) (l : list A)
    (d : B) (d' : A) :
  last (map f (x :: l)) d = f (last (x :: l) d').
Proof.
  revert x. induction l as [|y l IH]; intros x; [reflexivity |].
  change (last (map f (x :: y :: l)) d) with (last (map f (y :: l)) d).
  change (last (x :: y :: l) d') with (last (y :: l) d').
  apply IH.
Qed.

End JoinFacts.

(** The row decoded from the line that encodes [f] over the headers. *)
Lemma fill_row_encoded (f : string -> string) (k : string)
    (hs pre : list string) (row : obj) :
  (forall h, In h hs -> trim h = h /\ h <> proto /\ trim (f h) = f h) ->
  obj_get k (fill_row (List.length pre) hs (pre ++ map f hs) row)
  = if existsb (String.eqb k) hs then Some (f k) else obj_get k row.
Proof.
  revert pre row. induction hs as [|h hs IH]; intros pre row Hall; [reflexivity |].
  destruct (Hall h (or_introl eq_refl)) as [Hh [Hp Hv]].
  cbn [fill_row map existsb].
  rewrite nth_middle, Hh, Hv.
  replace (pre ++ f h :: map f hs) with ((pre ++ [f h]) ++ map f hs)
    by (now rewrite <- app_assoc).
  replace (S (List.length pre)) with (List.length (pre ++ [f h]))
    by (rewrite length_app; simpl; lia).
  rewrite IH by (intros h' Hh'; apply Hall; now right).
  rewrite obj_get_set.
  apply String.eqb_neq in Hp. unfold proto in Hp. rewrite Hp. simpl.
  rewrite andb_true_r.
  destruct (existsb (String.eqb k) hs); [now rewrite orb_true_r |].
  rewrite orb_false_r.
  destruct (String.eqb_spec k h) as [-> | _]; reflexivity.
Qed.

Lemma existsb_eqb_In (k : string) (l : list string) :
  existsb (String.eqb k) l = true <-> In k l.
Proof.
  rewrite existsb_exists. split.
  - intros [x [Hx Hk]]. apply String.eqb_eq in Hk. now subst.
  - intros H. exists k. split; [exact H | apply String.eqb_refl].
Qed.

Section RoundTrip.
Variable ks : list string.
Hypothesis Hkeys : Forall (fun k => plain k /\ k <> proto) ks.
Hypothesis Hhdr : join "," ks <> EmptyString.

Lemma keys_plain : Forall plain ks.
Proof. eapply Forall_impl; [| exact Hkeys]. now intros k [H _]. Qed.

Lemma keys_nonempty : ks <> [].
Proof. intros E. apply Hhdr. now rewrite E. Qed.

Lemma values_plain (r : obj) :
  encodable ks r -> Forall plain (map (fun k => field k r) ks).
Proof. intros [_ H]. now apply Forall_map. Qed.

Lemma parse_encode_row (r : obj) :
  encodable ks r -> obj_equiv (parse_line ks (encode_row ks r)) r.
Proof.
  intros Hr k. unfold parse_line, encode_row.
  rewrite split_comma_join.
  - pose proof (fill_row_encoded (fun k => field k r) k ks [] []) as E.
    simpl in E. rewrite E.
    + destruct (existsb (String.eqb k) ks) eqn:Hex.
      * apply existsb_eqb_In, (proj1 Hr), obj_get_keys in Hex.
        unfold field. destruct (obj_get k r); [reflexivity | congruence].
      * destruct (obj_get k r) eqn:G; [| reflexivity].
        assert (Hin : In k ks)
          by (apply (proj1 Hr), obj_get_keys; congruence).
        apply existsb_eqb_In in Hin. congruence.
    + intros h Hh. rewrite Forall_forall in Hkeys.
      destruct (Hkeys h Hh) as [[_ [_ Ht]] Hp].
      destruct Hr as [_ Hv]. rewrite Forall_forall in Hv.
      destruct (Hv h Hh) as [_ [_ Ht']]. now repeat split.
  - intros E. apply map_eq_nil in E. now apply keys_nonempty.
  - eapply Forall_impl; [| apply (values_plain r Hr)]. now intros v [H _].
Qed.

Lemma parse_encode_rows (rs : list obj) :
  Forall (encodable ks) rs ->
  Forall2 obj_equiv (map (parse_line ks) (map (encode_row ks) rs)) rs.
Proof.
  induction 1 as [|r rs Hr _ IH]; simpl; constructor.
  - now apply parse_encode_row.
  - exact IH.
Qed.

Lemma line_ok_join (items : list string) :
  Forall plain items ->
  has_char LF (join "," items) = false
  /\ trimEnd (join "," items) = join "," items.
Proof.
  intros H. split; [now apply join_comma_no_LF | now apply join_comma_trimEnd].
Qed.

(** Decoding the text made of the header and the rows of [r :: rs]. *)
Lemma parse_encoded_text (r : obj) (rs : list obj) :
  Forall (encodable ks) (r :: rs) ->
  encode_row ks (last (r :: rs) r) <> EmptyString ->
  parseCSV (join nl (join "," ks :: map (encode_row ks) (r :: rs)))
  = map (parse_line ks) (map (encode_row ks) (r :: rs)).
Proof.
  intros Hall Hlast.
  set (hdr := join "," ks). set (rows := map (encode_row ks) (r :: rs)).
  assert (Hlines : Forall (fun l => has_char LF l = false /\ trimEnd l = l)
                          (hdr :: rows)).
  { constructor; [apply line_ok_join, keys_plain |].
    unfold rows. apply Forall_map.
    eapply Forall_impl; [| exact Hall].
    intros r' Hr'. apply line_ok_join. now apply values_plain. }
  assert (Hstart : trimStart (join nl (hdr :: rows)) = join nl (hdr :: rows)).
  { apply join_nl_trimStart; [exact Hhdr |].
    apply join_comma_trimStart, keys_plain. }
  assert (Hend : trimEnd (join nl (hdr :: rows)) = join nl (hdr :: rows)).
  { apply join_nl_trimEnd.
    - eapply Forall_impl; [| exact Hlines]. now intros l [_ H].
    - change (last (hdr :: rows) EmptyString) with (last rows EmptyString).
      unfold rows. now rewrite (last_map_cons _ r rs EmptyString r). }
  unfold parseCSV, trim. rewrite Hstart, Hend.
  rewrite split_lines_join by (try discriminate; exact Hlines).
  unfold hdr. rewrite split_comma_join; [reflexivity | apply keys_nonempty |].
  eapply Forall_impl; [| apply keys_plain]. now intros k [H _].
Qed.

End RoundTrip.

(** C7, as stated, fails: a value without commas but with a leading space
    comes back trimmed. *)
Lemma roundtrip_leading_space :
  ~ (forall rs : list obj,
       Forall (fun r => Forall (fun kv => has_char comma (snd kv) = false) r) rs ->
       Forall2 obj_equiv (parseCSV (encodeCSV rs)) rs).
Proof.
  intros H.
  specialize (H [[("name", " Ann")]]).
  assert (Hok : Forall (fun r : obj =>
                  Forall (fun kv => has_char comma (snd kv) = false) r)
                  [[("name", " Ann")]])
    by (repeat constructor).
  specialize (H Hok). vm_compute in H.
  inversion H as [|? ? ? ? Heq _]; subst.
  specialize (Heq "name"). vm_compute in Heq. discriminate Heq.
Qed.

(** C7, amended. Encoding and then decoding gives back records equal as
    mappings to the original ones, for every non-empty list of records such
    that: every record has exactly the keys of the first one; no key and no
    value of those keys contains a comma or a line feed or has white space
    at either end; no key is [__proto__]; the header line is not empty; and
    the line of the last record is not empty.  The empty list encodes to
    text that decodes to no rows. *)
Theorem decode_encode_plain (r0 : obj) (rest : list obj)
    (Hkeys : Forall (fun k => plain k /\ k <> proto) (keys r0))
    (Hhdr : join "," (keys r0) <> EmptyString)
    (Hsame : Forall (fun r => forall k, In k (keys r) <-> In k (keys r0))
                    (r0 :: rest))
    (Hvals : Forall (fun r => Forall (fun k => plain (field k r)) (keys r0))
                    (r0 :: rest))
    (Hlast : encode_row (keys r0) (last (r0 :: rest) r0) <> EmptyString) :
  Forall2 obj_equiv (parseCSV (encodeCSV (r0 :: rest))) (r0 :: rest)
  /\ parseCSV (encodeCSV []) = [].
Proof.
  split; [| reflexivity].
  assert (Hall : Forall (encodable (keys r0)) (r0 :: rest)).
  { rewrite Forall_forall in Hsame, Hvals |- *.
    intros r Hr. split; [apply Hsame | apply Hvals]; exact Hr. }
  unfold encodeCSV.
  rewrite (parse_encoded_text (keys r0) Hkeys Hhdr r0 rest Hall Hlast).
  now apply parse_encode_rows.
Qed.

Lemma decode_encode_plain_witness :
  let r0 := [("id", "7"); ("name", "Ada Lovelace"); ("notes", EmptyString)] in
  let r1 := [("name", "Bo"); ("notes", "late; vegan"); ("id", "8")] in
  Forall2 obj_equiv (parseCSV (encodeCSV [r0; r1])) [r0; r1].
Proof.
  intros r0 r1.
  refine (proj1 (decode_encode_plain r0 [r1] _ _ _ _ _)).
  - repeat constructor; vm_compute; discriminate.
  - vm_compute. discriminate.
  - apply Forall_cons; [intros k; simpl; tauto |].
    apply Forall_cons; [intros k; simpl; tauto | apply Forall_nil].
  - repeat constructor.
  - vm_compute. discriminate.
Defined.

(** * Further properties of the page *)

(** ** Dataset loader *)

(** X1. When none of the five requests rejects, every collection is
    replaced and each depends on its own response alone: the decoded body,
    or the empty collection for a response whose status is not ok. *)
Theorem load_each_source_alone
    (oh og om oi oc : fetch_outcome) (st : page_data)
    (Hnone : Forall (fun o => o <> Fetch_rejects /\ o <> Text_rejects)
                    [oh; og; om; oi; oc]) :
  load oh og om oi oc st
  = {| d_hosts := rows_of oh; d_guests := rows_of og;
       d_matches := rows_of om; d_incidents := rows_of oi;
       d_comms := rows_of oc |}.
Proof.
  repeat match goal with
         | H : Forall _ (_ :: _) |- _ => inversion H; clear H; subst
         end.
  destruct oh, og, om, oi, oc; try tauto; reflexivity.
Qed.

Lemma load_each_source_alone_witness :
  load (Text ("id,name" ++ nl ++ "1,Ada")%string) Not_ok (Text "a") Not_ok
       (Text EmptyString) initial_data
  = {| d_hosts := [[("id", "1"); ("name", "Ada")]]; d_guests := [];
       d_matches := []; d_incidents := []; d_comms := [] |}.
Proof.
  refine (load_each_source_alone _ _ _ _ _ initial_data _).
  repeat constructor; discriminate.
Defined.

Lemma fetchCsv_rejects (o : fetch_outcome) :
  fetchCsv o = None <-> o = Fetch_rejects \/ o = Text_rejects.
Proof.
  destruct o; simpl; split; try discriminate; try tauto;
    intros [H | H]; discriminate H.
Qed.

(** X2. When any one of the five requests rejects (the network fails, or
    the body cannot be read), none of the five collections is replaced,
    whatever the other four responses are: a page that has just been
    mounted keeps five empty collections. *)
Theorem load_rejection_keeps_state
    (oh og om oi oc : fetch_outcome) (st : page_data)
    (Hrej : exists o, In o [oh; og; om; oi; oc]
                      /\ (o = Fetch_rejects \/ o = Text_rejects)) :
  load oh og om oi oc st = st
  /\ load oh og om oi oc initial_data = initial_data.
Proof.
  assert (H : forall st', load oh og om oi oc st' = st').
  { intros st'. destruct Hrej as [o [Hin Ho]].
    apply fetchCsv_rejects in Ho. unfold load.
    simpl in Hin.
    destruct Hin as [<- | [<- | [<- | [<- | [<- | []]]]]]; rewrite Ho;
      repeat match goal with
             | |- context [match fetchCsv ?x with _ => _ end] =>
                 destruct (fetchCsv x)
             end; reflexivity. }
  split; apply H.
Qed.

Lemma load_rejection_keeps_state_witness :
  load (Text ("id,name" ++ nl ++ "1,Ada")%string) Not_ok Fetch_rejects
       (Text "time") Not_ok initial_data
  = initial_data.
Proof.
  refine (proj2 (load_rejection_keeps_state _ _ _ _ _ initial_data _)).
  exists Fetch_rejects. split; [simpl; tauto | now left].
Defined.

(** ** Transportation tracker *)

(** X3. A guest whose arrival time does not parse is unknown at every
    time, and no other guest ever is.  As the clock advances the status of
    a guest only moves forward: a guest shown as arrived stays arrived, a
    guest shown as landing soon is later landing soon or arrived, and a
    guest who is in transit later was in transit before. *)
Theorem transport_status_forward
    (Date_parse : string -> option Z) (now now' : Z) (g : obj)
    (Hclock : (now <= now')%Z) :
  (transport_status Date_parse now g = "Arrived"
   -> transport_status Date_parse now' g = "Arrived")
  /\ (transport_status Date_parse now g = "Landing soon"
      -> transport_status Date_parse now' g = "Landing soon"
         \/ transport_status Date_parse now' g = "Arrived")
  /\ (transport_status Date_parse now g = "Unknown"
      <-> transport_status Date_parse now' g = "Unknown")
  /\ (Date_parse (field "arrival_time" g) = None
      -> forall t, transport_status Date_parse t g = "Unknown")
  /\ (forall t, transport_status Date_parse t g = "Unknown"
                -> Date_parse (field "arrival_time" g) = None)
  /\ (transport_status Date_parse now' g = "In transit"
      -> transport_status Date_parse now g = "In transit").
Proof.
  assert (Hnone : Date_parse (field "arrival_time" g) = None
                  -> forall t, transport_status Date_parse t g = "Unknown").
  { intros H t. unfold transport_status. now rewrite H. }
  assert (Hsome : forall t, transport_status Date_parse t g = "Unknown"
                            -> Date_parse (field "arrival_time" g) = None).
  { intros t. unfold transport_status.
    destruct (Date_parse (field "arrival_time" g)) as [a|]; [| reflexivity].
    destruct (a <? t - 3600000)%Z; [discriminate |].
    destruct (a <? t + 1800000)%Z; discriminate. }
  split; [| split; [| split; [| split; [exact Hnone | split; [exact Hsome |]]]]].
  - unfold transport_status.
    destruct (Date_parse (field "arrival_time" g)) as [t|]; [| discriminate].
    destruct (Z.ltb_spec t (now - 3600000)), (Z.ltb_spec t (now + 1800000)),
      (Z.ltb_spec t (now' - 3600000)), (Z.ltb_spec t (now' + 1800000));
      intros; try discriminate; try lia; auto.
  - unfold transport_status.
    destruct (Date_parse (field "arrival_time" g)) as [t|]; [| discriminate].
    destruct (Z.ltb_spec t (now - 3600000)), (Z.ltb_spec t (now + 1800000)),
      (Z.ltb_spec t (now' - 3600000)), (Z.ltb_spec t (now' + 1800000));
      intros; try discriminate; try lia; auto.
  - split; intros H; apply Hnone; exact (Hsome _ H).
  - unfold transport_status.
    destruct (Date_parse (field "arrival_time" g)) as [t|]; [| discriminate].
    destruct (Z.ltb_spec t (now - 3600000)), (Z.ltb_spec t (now + 1800000)),
      (Z.ltb_spec t (now' - 3600000)), (Z.ltb_spec t (now' + 1800000));
      intros; try discriminate; try lia; auto.
Qed.

Lemma transport_status_forward_witness :
  let parse := fun s : string => if String.eqb s "t0" then Some 1000000%Z else None in
  let g := [("name", "Ada"); ("arrival_time", "t0")] in
  let g' := [("name", "Bo"); ("arrival_time", "soon")] in
  transport_status parse 0 g = "Landing soon"
  /\ (transport_status parse 4600001 g = "Landing soon"
      \/ transport_status parse 4600001 g = "Arrived")
  /\ transport_status parse 4600001 g' = "Unknown".
Proof.
  intros parse g g'. split; [reflexivity |]. split.
  - refine (proj1 (proj2 (transport_status_forward parse 0 4600001 g _)) _).
    + lia.
    + reflexivity.
  - refine (proj1 (proj2 (proj2 (proj2
              (transport_status_forward parse 0 4600001 g' _)))) _ 4600001%Z).
    + lia.
    + reflexivity.
Defined.

(** ** Matching engine: what the list keeps *)

Lemma in_firstn_in {A : Type} (n : nat) (x : A) (l : list A) :
  In x (firstn n l) -> In x l.
Proof.
  intros H. rewrite <- (firstn_skipn n l). apply in_or_app. now left.
Qed.

Lemma in_split_firstn {A : Type} (n : nat) (x : A) (l : list A) :
  In x l -> In x (firstn n l) \/ In x (skipn n l).
Proof.
  intros H. rewrite <- (firstn_skipn n l) in H. now apply in_app_or.
Qed.

Lemma sorted_app_order {A : Type} (R : A -> A -> Prop) (l1 l2 : list A) :
  StronglySorted R (l1 ++ l2) ->
  forall a b, In a l1 -> In b l2 -> R a b.
Proof.
  induction l1 as [|x l1 IH]; simpl; intros Hs a b Ha Hb; [contradiction |].
  inversion Hs as [|? ? Hs' Hall]; subst.
  destruct Ha as [<- | Ha].
  - rewrite Forall_forall in Hall. apply Hall, in_or_app. now right.
  - now apply (IH Hs').
Qed.

Lemma suggestions_from_pairs (hosts guests : list obj) (s : suggestion) :
  In s (suggestions hosts guests) ->
  exists g h, In (g, h) (list_prod guests hosts)
              /\ genderOk g h = true /\ s = suggestion_of (g, h).
Proof.
  intros H. apply in_firstn_in in H.
  apply (Permutation_in _ (sort_perm by_score _)) in H.
  rewrite collect_spec in H. apply in_map_iff in H.
  destruct H as [[g h] [<- Hq]]. unfold qualifying in Hq.
  apply filter_In in Hq. destruct Hq as [Hin Hok].
  now exists g, h.
Qed.

(** X4. Every suggestion in the list has a score between 10 and 20 that is
    the sum of the points of its reasons (10, 5, 3 and 2), its first reason
    is the gender one, and it comes from a guest and a host of the two
    collections that pass the gender gate. *)
Theorem suggestion_score_is_sum (hosts guests : list obj) (s : suggestion)
    (Hs : In s (suggestions hosts guests)) :
  score s = sum_points (reasons s)
  /\ (10 <= score s <= 20)%Z
  /\ hd_error (reasons s) = Some "Gender comfort ok"
  /\ exists g h, In g guests /\ In h hosts /\ genderOk g h = true
                 /\ guest_id s = obj_get "id" g /\ host_id s = obj_get "id" h.
Proof.
  destruct (suggestions_from_pairs hosts guests s Hs) as [g [h [Hin [Hok ->]]]].
  apply in_prod_iff in Hin.
  assert (E : score (suggestion_of (g, h)) = sum_points (reasons (suggestion_of (g, h)))
              /\ hd_error (reasons (suggestion_of (g, h))) = Some "Gender comfort ok").
  { simpl. unfold score_pair. rewrite Hok.
    destruct (allergyOk g h), (accessOk g h), (bothConfirmed g h);
      split; reflexivity. }
  destruct E as [E1 E2].
  split; [exact E1 |]. split; [apply (score_pair_range g h Hok) |].
  split; [exact E2 |].
  exists g, h. tauto.
Qed.

Lemma suggestion_score_is_sum_witness :
  let s := {| guest_id := None; host_id := None; score := 20;
              reasons := [ "Gender comfort ok"; "Allergies compatible";
                           "Accessibility"; "Both confirmed" ] |} in
  score s = sum_points (reasons s).
Proof.
  intros s.
  refine (proj1 (suggestion_score_is_sum [example_host] [example_guest] s _)).
  vm_compute. left. reflexivity.
Defined.

(** X5. The cut at 50 never keeps a weaker suggestion in place of a
    stronger one: a qualifying pair whose suggestion is not in the list
    scores no more than every suggestion that is. *)
Theorem dropped_never_outranks_kept
    (hosts guests : list obj) (gh : obj * obj) (k : suggestion)
    (Hq : In gh (qualifying guests hosts))
    (Hdropped : ~ In (suggestion_of gh) (suggestions hosts guests))
    (Hkept : In k (suggestions hosts guests)) :
  (score (suggestion_of gh) <= score k)%Z.
Proof.
  unfold suggestions in *.
  set (ranked := sort by_score (collect guests hosts)) in *.
  assert (Hin : In (suggestion_of gh) ranked).
  { apply (Permutation_in _ (Permutation_sym (sort_perm by_score _))).
    rewrite collect_spec. now apply in_map. }
  destruct (in_split_firstn 50 _ _ Hin) as [H | H]; [contradiction |].
  pose proof (sort_by_score_sorted (collect guests hosts)) as Hs.
  fold ranked in Hs. rewrite <- (firstn_skipn 50 ranked) in Hs.
  exact (sorted_app_order ge_score _ _ Hs k (suggestion_of gh) Hkept H).
Qed.

(** Fifty-one guests and one host without preference: the last pair is cut. *)
Lemma dropped_never_outranks_kept_witness :
  let guests := map (fun n => [("id", String (ascii_of_nat (48 + n)) EmptyString)])
                    (seq 0 51) in
  let h := [("id", "h")] in
  (score (suggestion_of ([("id", "b")], h))
   <= score (suggestion_of ([("id", "0")], h)))%Z.
Proof.
  intros guests h.
  refine (dropped_never_outranks_kept [h] guests ([("id", "b")], h)
            (suggestion_of ([("id", "0")], h)) _ _ _).
  - vm_compute. do 50 right. left. reflexivity.
  - intros H. vm_compute in H.
    repeat (destruct H as [H | H]; [discriminate H |]). exact H.
  - vm_compute. left. reflexivity.
Defined.

(** X6. When at most 50 pairs qualify nothing is cut: the list is a
    rearrangement of the suggestions of all qualifying pairs. *)
Theorem suggestions_complete_up_to_50 (hosts guests : list obj)
    (Hfew : List.length (qualifying guests hosts) <= 50) :
  Permutation (suggestions hosts guests)
              (map suggestion_of (qualifying guests hosts)).
Proof.
  unfold suggestions. rewrite firstn_all2.
  - rewrite <- collect_spec. apply sort_perm.
  - now rewrite sort_length, collect_spec, length_map.
Qed.

Lemma suggestions_complete_up_to_50_witness :
  Permutation (suggestions [example_host; example_host] [example_guest])
              (map suggestion_of (qualifying [example_guest]
                                             [example_host; example_host])).
Proof.
  apply suggestions_complete_up_to_50. vm_compute. lia.
Defined.

(** X7. A host without a gender preference passes the gate with every
    guest; a guest whose [gender] is missing or empty passes the gate with
    exactly the hosts without a preference. *)
Theorem gate_without_preference (g h : obj) :
  (no_preference h -> genderOk g h = true)
  /\ (field "gender" g = EmptyString ->
      (genderOk g h = true <-> no_preference h)).
Proof.
  unfold no_preference, genderOk. split.
  - intros [H | H]; rewrite H; reflexivity.
  - intros Hg. rewrite Hg. simpl toLowerCase. simpl startsWith.
    rewrite !andb_false_r, !orb_false_r, orb_true_iff.
    rewrite String.eqb_eq, negb_true_iff.
    destruct (toLowerCase (field "gender_comfort" h)); simpl;
      intuition (try discriminate; auto).
Qed.

Lemma gate_without_preference_witness :
  genderOk [("id", "g1")] [("id", "h1"); ("gender_comfort", "ANY")] = true.
Proof.
  refine (proj1 (gate_without_preference _ _) _). right. reflexivity.
Defined.

(** ** Filter engine: how the filters compose *)

Lemma filter_all_true {A : Type} (p : A -> bool) (l : list A) :
  (forall x, p x = true) -> filter p l = l.
Proof.
  intros H. induction l as [|x l IH]; simpl; [reflexivity |].
  now rewrite H, IH.
Qed.

(** X8. With the filters the page starts with and an empty search box the
    table shows the whole active collection, in order: the hosts for the
    tab "hosts" and the guests for every other tab value. *)
Theorem filter_initial_shows_all (tab : string) (hosts guests : list obj) :
  filteredRows "hosts" hosts guests initial_filters EmptyString = hosts
  /\ (tab <> "hosts" ->
      filteredRows tab hosts guests initial_filters EmptyString = guests).
Proof.
  split.
  - unfold filteredRows. simpl String.eqb. now apply filter_all_true.
  - intros Ht. unfold filteredRows. apply String.eqb_neq in Ht. rewrite Ht.
    now apply filter_all_true.
Qed.

Lemma filter_initial_shows_all_witness :
  filteredRows "guests" [example_host] [example_guest] initial_filters EmptyString
  = [example_guest].
Proof.
  refine (proj2 (filter_initial_shows_all "guests" [example_host] [example_guest]) _).
  discriminate.
Defined.

Lemma includes_empty (x : string) : includes EmptyString x = true -> x = EmptyString.
Proof.
  rewrite includes_spec. intros [a [b H]].
  destruct a; [destruct x; [reflexivity | discriminate] | discriminate].
Qed.

Lemma okQ_narrow (q q' : string) (r : obj) :
  includes (toLowerCase q') (toLowerCase q) = true ->
  okQ q' r = true -> okQ q r = true.
Proof.
  intros Hq. unfold okQ. cbv zeta. rewrite !orb_true_iff, !negb_true_iff.
  intros [He | Hin].
  - left. destruct (toLowerCase q') as [|c lq']; [| discriminate He].
    now rewrite (includes_empty _ Hq).
  - right. exact (includes_trans _ _ _ Hin Hq).
Qed.

(** X9. Extending the search text never adds rows: when the lower-cased
    new text contains the lower-cased old one, every row shown for the new
    text was shown for the old one.  Nothing about lower-casing is used but
    that the name and both texts go through it. *)
Theorem search_narrows
    (tab : string) (hosts guests : list obj) (f : filters_t) (q q' : string)
    (Hext : includes (toLowerCase q') (toLowerCase q) = true) :
  incl (filteredRows tab hosts guests f q') (filteredRows tab hosts guests f q).
Proof.
  intros r. unfold filteredRows. rewrite !filter_In, !andb_true_iff.
  intros [Hin [[[H1 H2] H3] H4]]. repeat split; try assumption.
  now apply (okQ_narrow q q').
Qed.

Lemma search_narrows_witness :
  let ada := [("name", "Ada Lovelace")] in
  let adam := [("name", "ADAM")] in
  incl (filteredRows "hosts" [ada; adam] [] initial_filters "Adam")
       (filteredRows "hosts" [ada; adam] [] initial_filters "DA").
Proof.
  intros ada adam. apply search_narrows. reflexivity.
Defined.

(** X10. The gender filter value "male" also matches every record that the
    value "female" matches, since the test is containment: the rows shown
    for "female" are among the rows shown for "male". *)
Theorem male_filter_includes_female
    (tab : string) (hosts guests : list obj)
    (a : allergy_option) (x : access_option) (q : string) :
  incl (filteredRows tab hosts guests (selected G_female a x) q)
       (filteredRows tab hosts guests (selected G_male a x) q).
Proof.
  intros r. unfold filteredRows. rewrite !filter_In, !andb_true_iff.
  intros [Hin [[[H1 H2] H3] H4]]. repeat split; try assumption.
  unfold okG in *. simpl in *.
  apply (includes_trans _ _ _ H1). reflexivity.
Qed.

(** ** Metrics: the other figures *)

Lemma pct_close_below_101 : pct_close_below 101 = true.
Proof. vm_compute. reflexivity. Qed.

Lemma pct_close_below_spec (bound : nat) :
  pct_close_below bound = true ->
  forall c n, c <= n -> n < bound ->
    pct c n = of_Z (exact_pct c n)
    \/ (tie c n = true /\ pct c n = of_Z (exact_pct c n - 1)).
Proof.
  unfold pct_close_below. intros H c n Hc Hn.
  rewrite forallb_forall in H.
  assert (Hin : In n (seq 0 bound)) by (apply in_seq; lia).
  specialize (H n Hin). rewrite forallb_forall in H.
  assert (Hin' : In c (seq 0 (S n))) by (apply in_seq; lia).
  specialize (H c Hin'). apply orb_true_iff in H. destruct H as [H | H].
  - left. now apply number_eqb_eq.
  - right. apply andb_true_iff in H. destruct H as [Ht He].
    split; [exact Ht | now apply number_eqb_eq].
Qed.

Lemma pct_close (c n : nat) :
  c <= n -> n <= 100 ->
  pct c n = of_Z (exact_pct c n)
  \/ (tie c n = true /\ pct c n = of_Z (exact_pct c n - 1)).
Proof.
  intros Hc Hn. apply (pct_close_below_spec 101 pct_close_below_101); lia.
Qed.

Lemma exact_pct_range (c n : nat) : c <= n -> (0 <= exact_pct c n <= 100)%Z.
Proof.
  intros Hc. unfold exact_pct. destruct n as [|n]; [lia |].
  split.
  - apply Z.div_pos; lia.
  - apply Z.lt_succ_r. apply Z.div_lt_upper_bound; lia.
Qed.

(** X11. For collections of at most 100 records both percentages are the
    exact rounding [round(100 * c / n)], which lies between 0 and 100, or
    one below it, and one below only when [100 * c / n] is exactly half
    way between two integers. *)
Theorem percentages_within_one
    (hosts guests incidents matches : list obj)
    (Hh : List.length hosts <= 100) (Hg : List.length guests <= 100) :
  let m := metrics hosts guests incidents matches in
  let close (v : number) (c n : nat) :=
    (0 <= exact_pct c n <= 100)%Z
    /\ (v = of_Z (exact_pct c n)
        \/ (tie c n = true /\ v = of_Z (exact_pct c n - 1))) in
  close (hostsConfirmedPct m) (List.length (filter is_yes hosts)) (List.length hosts)
  /\ close (guestsConfirmedPct m) (List.length (filter is_yes guests))
           (List.length guests).
Proof.
  simpl. split; (split; [apply exact_pct_range, filter_length_le |
                         apply pct_close; [apply filter_length_le | assumption]]).
Qed.

Lemma percentages_within_one_witness :
  guestsConfirmedPct (metrics [] hosts_23_of_40 [] []) = of_Z 57
  \/ guestsConfirmedPct (metrics [] hosts_23_of_40 [] []) = of_Z 58.
Proof.
  destruct (percentages_within_one [] hosts_23_of_40 [] []) as [_ [_ H]].
  - simpl. lia.
  - vm_compute. lia.
  - destruct H as [H | [_ H]]; [right | left]; exact H.
Defined.

(** X12. Adding an incident on the page does not change the Open Incidents
    figure, which counts loaded incidents only, although the incident table
    gains the row; an incident added without a status, or with an empty
    one, is open. *)
Theorem added_incident_not_counted
    (hosts guests matches : list obj) (now : string) (fd : form_data)
    (st : ledger) :
  openIncidents_shown hosts guests matches (addIncident now fd st)
  = openIncidents_shown hosts guests matches st
  /\ incidentRows (addIncident now fd st) = incident_row now fd :: incidentRows st
  /\ (is_open (incident_row now fd) = true ->
      List.length (filter is_open (incidentRows (addIncident now fd st)))
      = S (List.length (filter is_open (incidentRows st))))
  /\ (fd_status fd = None \/ fd_status fd = Some EmptyString ->
      is_open (incident_row now fd) = true).
Proof.
  split; [reflexivity |]. split; [reflexivity |]. split.
  - intros Ho. rewrite incidentRows_add. simpl filter. now rewrite Ho.
  - intros [H | H]; unfold is_open, incident_row, field; simpl; now rewrite H.
Qed.

Lemma added_incident_not_counted_witness :
  let fd := {| fd_time := Some EmptyString; fd_type := Some "Noise";
               fd_person := Some "Ada"; fd_status := None;
               fd_notes := Some EmptyString |} in
  is_open (incident_row "2024-05-01T10:00:00.000Z" fd) = true.
Proof.
  intros fd.
  refine (proj2 (proj2 (proj2 (added_incident_not_counted [] [] []
            "2024-05-01T10:00:00.000Z" fd
            {| incidents := []; addedIncidents := [] |}))) _).
  left. reflexivity.
Defined.

(** ** Tabular decoder: what every row has *)

Section RowKeys.

Lemma obj_has_In (k : string) (o : obj) : obj_has k o = true <-> In k (keys o).
Proof.
  rewrite <- obj_get_keys. unfold obj_has.
  destruct (obj_get k o); split; congruence.
Qed.

Lemma obj_has_congr (k : string) (o o' : obj) :
  keys o = keys o' -> obj_has k o = obj_has k o'.
Proof.
  intros E. destruct (obj_has k o) eqn:H1, (obj_has k o') eqn:H2; try reflexivity.
  - apply obj_has_In in H1. rewrite E in H1. apply obj_has_In in H1. congruence.
  - apply obj_has_In in H2. rewrite <- E in H2. apply obj_has_In in H2. congruence.
Qed.

Lemma keys_update (k v : string) (o : obj) : keys (obj_update k v o) = keys o.
Proof.
  induction o as [|[k1 v1] o IH]; simpl; [reflexivity |].
  destruct (String.eqb k k1); simpl; [reflexivity | now rewrite IH].
Qed.

Lemma keys_insert_index_congr (n : N) (k v v' : string) (o o' : obj) :
  keys o = keys o' ->
  keys (obj_insert_index n k v o) = keys (obj_insert_index n k v' o').
Proof.
  revert o'. induction o as [|[k1 v1] o IH]; intros [|[k1' v1'] o'] E;
    try discriminate; [reflexivity |].
  simpl in E. injection E as <- E. simpl.
  destruct (array_index k1) as [m|]; [destruct (m <? n)%N |]; simpl;
    try (now rewrite E).
  now rewrite (IH o' E).
Qed.

Lemma keys_insert_index_In (n : N) (k v x : string) (o : obj) :
  In x (keys (obj_insert_index n k v o)) <-> x = k \/ In x (keys o).
Proof.
  induction o as [|[k1 v1] o IH]; simpl.
  - intuition.
  - destruct (array_index k1) as [m|]; [destruct (m <? n)%N |]; simpl;
      rewrite ?IH; intuition.
Qed.

Lemma keys_insert_index_NoDup (n : N) (k v : string) (o : obj) :
  ~ In k (keys o) -> NoDup (keys o) -> NoDup (keys (obj_insert_index n k v o)).
Proof.
  induction o as [|[k1 v1] o IH]; simpl; intros Hk Hnd.
  - repeat constructor. tauto.
  - inversion Hnd as [|? ? Hk1 Hnd']; subst.
    destruct (array_index k1) as [m|]; [destruct (m <? n)%N |]; simpl;
      try (constructor; [simpl; tauto | exact Hnd]).
    constructor.
    + rewrite keys_insert_index_In. intuition.
    + apply IH; tauto.
Qed.

Lemma keys_set_congr (k v v' : string) (o o' : obj) :
  keys o = keys o' -> keys (obj_set k v o) = keys (obj_set k v' o').
Proof.
  intros E. unfold obj_set. destruct (String.eqb k "__proto__"); [exact E |].
  rewrite <- (obj_has_congr k o o' E). destruct (obj_has k o).
  - now rewrite !keys_update.
  - destruct (array_index k) as [n|].
    + now apply keys_insert_index_congr.
    + unfold keys in *. rewrite !map_app. now rewrite E.
Qed.

Lemma keys_set_NoDup (k v : string) (o : obj) :
  NoDup (keys o) -> NoDup (keys (obj_set k v o)).
Proof.
  intros Hnd. unfold obj_set. destruct (String.eqb k "__proto__"); [exact Hnd |].
  destruct (obj_has k o) eqn:Hhas.
  - now rewrite keys_update.
  - assert (Hk : ~ In k (keys o)) by (rewrite <- obj_has_In; congruence).
    destruct (array_index k) as [n|].
    + now apply keys_insert_index_NoDup.
    + unfold keys in *. rewrite map_app. simpl.
      apply (Permutation_NoDup (Permutation_cons_append _ _)).
      now constructor.
Qed.

Lemma fill_row_keys_congr (hs cols cols' : list string) (i i' : nat) (row row' : obj) :
  keys row = keys row' ->
  keys (fill_row i hs cols row) = keys (fill_row i' hs cols' row').
Proof.
  revert i i' row row'. induction hs as [|h hs IH]; intros i i' row row' E; simpl.
  - exact E.
  - apply IH. now apply keys_set_congr.
Qed.

Lemma fill_row_NoDup (hs cols : list string) (i : nat) (row : obj) :
  NoDup (keys row) -> NoDup (keys (fill_row i hs cols row)).
Proof.
  revert i row. induction hs as [|h hs IH]; intros i row Hnd; simpl.
  - exact Hnd.
  - apply IH. now apply keys_set_NoDup.
Qed.

End RowKeys.

(** X13. All rows decoded from one text have the same keys in the same
    order, no key occurs twice in a row, and no row has the key
    [__proto__]: the keys of the first row are the columns of every row. *)
Theorem parseCSV_rows_share_keys (text : string) (r1 r2 : obj)
    (H1 : In r1 (parseCSV text)) (H2 : In r2 (parseCSV text)) :
  keys r1 = keys r2 /\ NoDup (keys r1) /\ ~ In proto (keys r1).
Proof.
  unfold parseCSV in *.
  destruct (split_lines (trim text)) as [|l0 rest]; [contradiction |].
  apply in_map_iff in H1. destruct H1 as [l1 [<- _]].
  apply in_map_iff in H2. destruct H2 as [l2 [<- _]].
  unfold parse_line. split; [| split].
  - now apply fill_row_keys_congr.
  - apply fill_row_NoDup. constructor.
  - rewrite <- obj_get_keys. intros H. apply H. now apply fill_row_proto.
Qed.

Lemma parseCSV_rows_share_keys_witness :
  let text := ("b,1,a,b,0" ++ nl ++ "x" ++ nl ++ "p,q,r,s,t,u")%string in
  let r1 := [("0", EmptyString); ("1", EmptyString); ("b", EmptyString);
             ("a", EmptyString)] in
  let r2 := [("0", "t"); ("1", "q"); ("b", "s"); ("a", "r")] in
  parseCSV text = [r1; r2] /\ keys r1 = keys r2 /\ NoDup (keys r1).
Proof.
  intros text r1 r2. split; [reflexivity |].
  refine ((fun H => conj (proj1 H) (proj1 (proj2 H)))
            (parseCSV_rows_share_keys text r1 r2 _ _)).
  - left. reflexivity.
  - right. left. reflexivity.
Defined.

Section Pieces.

Lemma has_char_trimStart (d : ascii) (s : string) :
  has_char d s = false -> has_char d (trimStart s) = false.
Proof.
  induction s as [|c s IH]; simpl; [reflexivity |].
  rewrite orb_false_iff. intros [Hc Hs].
  destruct (is_space c); [now apply IH | simpl; now rewrite Hc, Hs].
Qed.

Lemma has_char_trimEnd (d : ascii) (s : string) :
  has_char d s = false -> has_char d (trimEnd s) = false.
Proof.
  induction s as [|c s IH]; simpl; [reflexivity |].
  rewrite orb_false_iff. intros [Hc Hs]. specialize (IH Hs).
  destruct (trimEnd s) as [|c' t].
  - destruct (is_space c); simpl; [reflexivity | now rewrite Hc].
  - simpl in *. now rewrite Hc, IH.
Qed.

Lemma trimEnd_idem (s : string) : trimEnd (trimEnd s) = trimEnd s.
Proof.
  induction s as [|c s IH]; simpl; [reflexivity |].
  destruct (trimEnd s) as [|c' t] eqn:E.
  - destruct (is_space c) eqn:Hc; simpl; [reflexivity | now rewrite Hc].
  - change (trimEnd (String c (String c' t))) with
      (match trimEnd (String c' t) with
       | EmptyString => if is_space c then EmptyString else String c EmptyString
       | u => String c u
       end).
    now rewrite IH.
Qed.

Lemma trimStart_idem (s : string) : trimStart (trimStart s) = trimStart s.
Proof.
  induction s as [|c s IH]; simpl; [reflexivity |].
  destruct (is_space c) eqn:Hc; [exact IH | simpl; now rewrite Hc].
Qed.

Lemma trimStart_trimEnd (t : string) :
  trimStart t = t -> trimStart (trimEnd t) = trimEnd t.
Proof.
  destruct t as [|c t]; [reflexivity |]. intros H.
  apply trimStart_head in H. simpl.
  destruct (trimEnd t); [rewrite H |]; simpl; now rewrite H.
Qed.

Lemma trim_idem (s : string) : trim (trim s) = trim s.
Proof.
  unfold trim.
  rewrite (trimStart_trimEnd (trimStart s) (trimStart_idem s)).
  apply trimEnd_idem.
Qed.

Lemma plain_trim (s : string) :
  has_char comma s = false -> has_char LF s = false -> plain (trim s).
Proof.
  intros Hc Hl. unfold plain, trim. repeat split.
  - now apply has_char_trimEnd, has_char_trimStart.
  - now apply has_char_trimEnd, has_char_trimStart.
  - apply trim_idem.
Qed.

Lemma has_char_snoc (d : ascii) (cur : string) (c : ascii) :
  has_char d (snoc cur c) = has_char d cur || Ascii.eqb c d.
Proof. unfold snoc. rewrite has_char_app. simpl. now rewrite orb_false_r. Qed.

(** The pieces of a split never contain the delimiter, and contain no
    character that the text does not. *)
Lemma split_on_pieces (d x : ascii) (s cur : string) :
  has_char x cur = false ->
  (has_char x s = false \/ x = d) ->
  Forall (fun p => has_char x p = false) (split_on d cur s).
Proof.
  revert cur. induction s as [|c s IH]; intros cur Hcur Hs; simpl.
  - now constructor.
  - assert (Hs' : has_char x s = false \/ x = d).
    { destruct Hs as [Hs | Hs]; [| now right].
      left. simpl in Hs. now apply orb_false_iff in Hs. }
    destruct (Ascii.eqb_spec c d) as [-> | Hcd].
    + constructor; [exact Hcur | now apply IH].
    + apply IH; [| exact Hs'].
      rewrite has_char_snoc, Hcur. simpl.
      destruct Hs as [Hs | ->].
      * simpl in Hs. now apply orb_false_iff in Hs.
      * now apply Ascii.eqb_neq.
Qed.

Lemma split_lines_pieces (s cur : string) :
  has_char LF cur = false ->
  Forall (fun p => has_char LF p = false) (split_lines_from cur s).
Proof.
  revert cur. induction s as [|c s IH]; intros cur Hcur.
  - now constructor.
  - rewrite split_lines_from_step.
    destruct (Ascii.eqb c LF) eqn:Hc.
    + constructor; [exact Hcur | now apply IH].
    + assert (Hsnoc : has_char LF (snoc cur c) = false)
        by (now rewrite has_char_snoc, Hcur, Hc).
      destruct s as [|c' s']; [now apply IH |].
      destruct (Ascii.eqb c CR && Ascii.eqb c' LF) eqn:Hcr; [| now apply IH].
      apply andb_true_iff in Hcr. destruct Hcr as [_ Hc'].
      constructor; [exact Hcur |].
      specialize (IH EmptyString eq_refl).
      rewrite split_lines_from_step, Hc' in IH.
      now inversion IH.
Qed.

Lemma obj_set_entries (k v : string) (o : obj) (kv : string * string) :
  In kv (obj_set k v o) -> kv = (k, v) \/ In kv o.
Proof.
  unfold obj_set. destruct (String.eqb k "__proto__"); [now right |].
  destruct (obj_has k o).
  - clear. induction o as [|[k1 v1] o IH]; simpl; [solve [intuition (subst; auto)] |].
    destruct (String.eqb_spec k k1) as [-> | _]; simpl.
    + intros [<- | H]; [now left | right; now right].
    + intros [<- | H]; [right; now left | destruct (IH H); [now left | right; now right]].
  - destruct (array_index k) as [n|].
    + clear. induction o as [|[k1 v1] o IH]; simpl; [solve [intuition (subst; auto)] |].
      destruct (array_index k1) as [m|]; [destruct (m <? n)%N |]; simpl;
        solve [intuition (subst; auto)].
    + intros H. apply in_app_or in H. simpl in H. intuition (subst; auto).
Qed.

Lemma fill_row_entries (P : string * string -> Prop)
    (hs cols : list string) (i : nat) (row : obj) :
  (forall h j, In h hs -> P (trim h, trim (nth j cols EmptyString))) ->
  Forall P row -> Forall P (fill_row i hs cols row).
Proof.
  revert i row. induction hs as [|h hs IH]; intros i row Hnew Hrow; simpl.
  - exact Hrow.
  - apply IH; [intros h' j Hh'; apply Hnew; now right |].
    rewrite Forall_forall in Hrow |- *. intros kv Hkv.
    destruct (obj_set_entries _ _ _ _ Hkv) as [-> | Hin].
    + apply Hnew. now left.
    + now apply Hrow.
Qed.

Lemma split_lines_from_length (s cur : string) :
  List.length (split_lines_from cur s) = S (count_char LF s).
Proof.
  revert cur. induction s as [|c s IH]; intros cur; [reflexivity |].
  rewrite split_lines_from_step. simpl count_char.
  destruct (Ascii.eqb c LF) eqn:Hc.
  - simpl. now rewrite IH.
  - destruct s as [|c' s']; [apply IH |].
    destruct (Ascii.eqb c CR && Ascii.eqb c' LF) eqn:Hcr; [| apply IH].
    apply andb_true_iff in Hcr. destruct Hcr as [_ Hc'].
    specialize (IH EmptyString). rewrite split_lines_from_step, Hc' in IH.
    simpl in IH |- *. rewrite Hc' in *. simpl in *. lia.
Qed.

End Pieces.

(** X14. Every key and every value of every decoded row is free of commas
    and line feeds and has no white space at either end. *)
Theorem parseCSV_entries_plain (text : string) (row : obj) (k v : string)
    (Hrow : In row (parseCSV text)) (Hkv : In (k, v) row) :
  plain k /\ plain v.
Proof.
  unfold parseCSV, split_lines in Hrow.
  pose proof (split_lines_pieces (trim text) EmptyString eq_refl) as Hlines.
  destruct (split_lines_from EmptyString (trim text)) as [|l0 rest];
    [contradiction |].
  inversion Hlines as [|? ? Hl0 Hrest]; subst.
  apply in_map_iff in Hrow. destruct Hrow as [l [<- Hl]].
  rewrite Forall_forall in Hrest. specialize (Hrest l Hl).
  assert (Hpieces : forall line p, has_char LF line = false ->
                      In p (split_comma line) ->
                      has_char comma p = false /\ has_char LF p = false).
  { intros line p Hline Hp. unfold split_comma in Hp. split.
    - pose proof (split_on_pieces comma comma line EmptyString eq_refl
                    (or_intror eq_refl)) as H.
      rewrite Forall_forall in H. now apply H.
    - pose proof (split_on_pieces comma LF line EmptyString eq_refl
                    (or_introl Hline)) as H.
      rewrite Forall_forall in H. now apply H. }
  assert (HF : Forall (fun kv => plain (fst kv) /\ plain (snd kv))
                      (fill_row 0 (split_comma l0) (split_comma l) [])).
  { apply fill_row_entries; [| constructor].
    intros h j Hh. simpl. split.
    - destruct (Hpieces l0 h Hl0 Hh). now apply plain_trim.
    - destruct (nth_in_or_default j (split_comma l) EmptyString) as [Hin | ->].
      + destruct (Hpieces l _ Hrest Hin). now apply plain_trim.
      + now apply plain_trim. }
  rewrite Forall_forall in HF. exact (HF (k, v) Hkv).
Qed.

Lemma parseCSV_entries_plain_witness :
  plain "first name" /\ plain "Ada  L.".
Proof.
  apply (parseCSV_entries_plain
           (" first name ,id" ++ String CR nl ++ "  Ada  L. , 7 ")%string
           [("first name", "Ada  L."); ("id", "7")]).
  - vm_compute. left. reflexivity.
  - left. reflexivity.
Defined.

(** X15. The decoder gives one row for each line feed of the trimmed text:
    a text of one line (the header alone, or nothing) gives no row, and a
    blank line between two rows is a row. *)
Theorem parseCSV_row_count (text : string) :
  List.length (parseCSV text) = count_char LF (trim text).
Proof.
  unfold parseCSV, split_lines.
  pose proof (split_lines_from_length (trim text) EmptyString) as H.
  destruct (split_lines_from EmptyString (trim text)) as [|l0 rest];
    [discriminate H |].
  rewrite length_map. simpl in H. lia.
Qed.

(** ** Incident ledger: what an export holds *)

(** X16. Once an incident has been added on the page, the export is never
    empty and its columns are the five columns of an added incident,
    whatever columns the loaded incidents have: the header line is
    [time,type,person,status,notes], and every merged incident, the new one
    first, gives one line with its escaped values for these five keys. *)
Theorem export_after_add (now : string) (fd : form_data) (st : ledger) :
  exists lines,
    exportIncidents (addIncident now fd st)
    = Some (join nl ("time,type,person,status,notes" :: lines))
    /\ lines
       = map (fun r => join "," (map (fun h => esc (obj_get h r)) incident_columns))
             (incident_row now fd :: incidentRows st)
    /\ split_comma "time,type,person,status,notes" = incident_columns
    /\ keys (incident_row now fd) = incident_columns.
Proof.
  eexists. split; [| split; [reflexivity | split; reflexivity]].
  reflexivity.
Qed.

Section Reimport.

Lemma field_quoted (ks : list string) (r : obj) (k : string) :
  In k ks -> field k (quoted ks r) = esc (obj_get k r).
Proof.
  unfold field, quoted. induction ks as [|k0 ks IH]; simpl; [contradiction |].
  destruct (String.eqb_spec k k0) as [-> | Hne]; [reflexivity |].
  intros [-> | Hin]; [congruence | now apply IH].
Qed.

Lemma keys_quoted (ks : list string) (r : obj) : keys (quoted ks r) = ks.
Proof.
  unfold keys, quoted. rewrite map_map. simpl. apply map_id.
Qed.

Lemma encode_row_quoted (ks : list string) (r : obj) :
  encode_row ks (quoted ks r)
  = join "," (map (fun h => esc (obj_get h r)) ks).
Proof.
  unfold encode_row. f_equal. apply map_ext_in.
  intros k Hk. now apply field_quoted.
Qed.

Lemma has_char_double_quotes (d : ascii) (s : string) :
  d <> quote -> has_char d (double_quotes s) = has_char d s.
Proof.
  intros Hd. apply not_eq_sym in Hd. apply Ascii.eqb_neq in Hd.
  induction s as [|c s IH]; [reflexivity |].
  cbn [double_quotes has_char].
  destruct (Ascii.eqb c quote) eqn:E; cbn [has_char].
  - apply Ascii.eqb_eq in E. subst c. rewrite Hd. cbn [orb]. exact IH.
  - now rewrite IH.
Qed.

Lemma plain_esc (v : option string) :
  has_char comma (or_empty v) = false ->
  has_char LF (or_empty v) = false ->
  plain (esc v).
Proof.
  intros Hc Hl. unfold esc. fold (or_empty v). repeat split.
  - simpl. rewrite has_char_app, has_char_double_quotes by discriminate.
    now rewrite Hc.
  - simpl. rewrite has_char_app, has_char_double_quotes by discriminate.
    now rewrite Hl.
  - unfold trim. simpl trimStart.
    change (String quote (double_quotes (or_empty v) ++ String quote EmptyString))
      with ((String quote (double_quotes (or_empty v))) ++ String quote EmptyString)%string.
    apply trimEnd_app_r; [discriminate | reflexivity].
Qed.

Lemma esc_changes (v : option string) : Some (esc v) <> v.
Proof.
  destruct v as [s|]; [| discriminate]. intros H. injection H as H.
  apply (f_equal String.length) in H. unfold esc in H. simpl in H.
  assert (L : forall a b, String.length (a ++ b) = String.length a + String.length b)
    by (intros a b; induction a; simpl; congruence).
  rewrite L, double_quotes_length in H. simpl in H. lia.
Qed.

Lemma encode_row_quoted_nonempty (ks : list string) (r : obj) :
  ks <> [] -> encode_row ks (quoted ks r) <> EmptyString.
Proof.
  intros Hks. rewrite encode_row_quoted.
  destruct ks as [|k [|k' ks]]; [congruence | discriminate | discriminate].
Qed.

Lemma Forall2_map_right {A B C : Type} (R : A -> C -> Prop) (f : B -> C)
    (l : list A) (l' : list B) :
  Forall2 R l (map f l') -> Forall2 (fun a b => R a (f b)) l l'.
Proof.
  revert l. induction l' as [|b l' IH]; intros l H; inversion H; subst;
    constructor; auto.
Qed.

End Reimport.

(** X17. The decoder does not read an export back: when the keys of the
    first merged incident are plain, none is [__proto__], the header line
    is not empty and no exported value contains a comma or a line feed,
    decoding the exported text gives one row per incident in which every
    header key holds the escaped value, quotes included, which is never
    the value the incident has. *)
Theorem export_reimport_keeps_quotes (st : ledger) (r0 : obj) (rest : list obj)
    (Hrows : incidentRows st = r0 :: rest)
    (Hkeys : Forall (fun k => plain k /\ k <> proto) (keys r0))
    (Hhdr : join "," (keys r0) <> EmptyString)
    (Hvals : Forall (fun r =>
                Forall (fun k => has_char comma (or_empty (obj_get k r)) = false
                                 /\ has_char LF (or_empty (obj_get k r)) = false)
                       (keys r0))
                (r0 :: rest)) :
  exists text,
    exportIncidents st = Some text
    /\ Forall2 (fun row r =>
                  forall k, In k (keys r0) ->
                    obj_get k row = Some (esc (obj_get k r))
                    /\ obj_get k row <> obj_get k r)
               (parseCSV text) (r0 :: rest).
Proof.
  set (ks := keys r0) in *.
  unfold exportIncidents. rewrite Hrows. fold ks.
  eexists. split; [reflexivity |].
  replace (map (fun r => join "," (map (fun h => esc (obj_get h r)) ks)) (r0 :: rest))
    with (map (encode_row ks) (map (quoted ks) (r0 :: rest)))
    by (rewrite map_map; apply map_ext; intros r; apply encode_row_quoted).
  change ([join "," ks] ++ ?l) with (join "," ks :: l).
  assert (Hall : Forall (encodable ks) (map (quoted ks) (r0 :: rest))).
  { apply Forall_map. eapply Forall_impl; [| exact Hvals].
    intros r Hr. split.
    - intros k. now rewrite keys_quoted.
    - rewrite Forall_forall in Hr |- *. intros k Hk.
      rewrite (field_quoted ks r k Hk). destruct (Hr k Hk). now apply plain_esc. }
  change (String LF EmptyString) with nl.
  change (map (quoted ks) (r0 :: rest))
    with (quoted ks r0 :: map (quoted ks) rest) in *.
  rewrite (parse_encoded_text ks Hkeys Hhdr _ _ Hall).
  - apply parse_encode_rows in Hall; [| exact Hkeys | exact Hhdr].
    change (quoted ks r0 :: map (quoted ks) rest)
      with (map (quoted ks) (r0 :: rest)) in Hall.
    apply Forall2_map_right in Hall.
    eapply Forall2_impl; [| exact Hall].
    intros row r Heq k Hk. simpl in Heq.
    assert (E : obj_get k row = Some (esc (obj_get k r))).
    { rewrite (Heq k). pose proof (field_quoted ks r k Hk) as F.
      unfold field in F. destruct (obj_get k (quoted ks r)) eqn:G.
      - now rewrite F.
      - exfalso. assert (In k (keys (quoted ks r))) by now rewrite keys_quoted.
        apply obj_get_keys in H. congruence. }
    split; [exact E |]. rewrite E. apply esc_changes.
  - change (quoted ks r0 :: map (quoted ks) rest)
      with (map (quoted ks) (r0 :: rest)).
    rewrite (last_map_cons (quoted ks) r0 rest (quoted ks r0) r0).
    apply encode_row_quoted_nonempty. intros E. apply Hhdr. now rewrite E.
Qed.

(** An incident added on the page and a loaded one with other columns. *)
Lemma export_reimport_keeps_quotes_witness :
  let fd := {| fd_time := None; fd_type := Some "Noise"; fd_person := Some "Ada";
               fd_status := None; fd_notes := Some "  second floor " |} in
  let st := addIncident "2024-05-01T10:00:00.000Z" fd
              {| incidents := [[("when", "9am"); ("notes", "lost key")]];
                 addedIncidents := [] |} in
  exists text,
    exportIncidents st = Some text
    /\ exists row1 row2,
         parseCSV text = [row1; row2]
         /\ obj_get "status" row1 = Some (esc (Some "Open"))
         /\ obj_get "time" row2 = Some (esc None).
Proof.
  intros fd st.
  destruct (export_reimport_keeps_quotes st
              (incident_row "2024-05-01T10:00:00.000Z" fd)
              [[("when", "9am"); ("notes", "lost key")]] eq_refl)
    as [text [Htext Hrows]].
  - repeat constructor; vm_compute; discriminate.
  - vm_compute. discriminate.
  - repeat constructor.
  - exists text. split; [exact Htext |].
    inversion Hrows as [|row1 ? l1 ? P1 Hrest E1]; subst.
    inversion Hrest as [|row2 ? l2 ? P2 Hnil E2]; subst.
    inversion Hnil; subst.
    exists row1, row2. split; [reflexivity |]. split.
    + apply P1. simpl. tauto.
    + apply P2. simpl. tauto.
Defined.

(** ** Matching engine: the allergy rule *)

Section AllergyTokens.

Lemma includes_middle (pre x post : string) :
  includes (pre ++ x ++ post) x = true.
Proof. apply includes_spec. now exists pre, post. Qed.

(** Every piece of the allergy split occurs in the text. *)
Lemma split_seps_from_includes (s pre cur : string) (b : bool) :
  Forall (fun p => includes (pre ++ cur ++ s) p = true) (split_seps_from b cur s).
Proof.
  revert pre cur b. induction s as [|c s IH]; intros pre cur b; simpl.
  - constructor; [apply includes_middle | constructor].
  - assert (Hsep : Forall (fun p => includes (pre ++ cur ++ String c s) p = true)
                          (split_seps_from true EmptyString s)).
    { specialize (IH (pre ++ cur ++ String c EmptyString)%string EmptyString true).
      simpl in IH. now rewrite !append_assoc in IH. }
    destruct (is_sep c).
    + destruct b; [exact Hsep |].
      constructor; [apply includes_middle | exact Hsep].
    + specialize (IH pre (snoc cur c) false).
      now rewrite snoc_append in IH.
Qed.

(** The split has a piece that is not empty as soon as the text has a
    character that is not a separator. *)
Lemma split_seps_from_token (s cur : string) (b : bool) :
  (b = false /\ cur <> EmptyString) \/ has_token s = true ->
  exists p, In p (split_seps_from b cur s) /\ truthy p = true.
Proof.
  revert cur b. induction s as [|c s IH]; intros cur b H; simpl.
  - destruct H as [[_ Hcur] | H]; [| discriminate].
    exists cur. split; [now left | now destruct cur].
  - simpl in H. destruct (is_sep c); simpl in H.
    + destruct b.
      * destruct H as [[Hb _] | H]; [discriminate |].
        apply (IH EmptyString true). now right.
      * destruct cur as [|c0 cur].
        -- destruct H as [[_ Hcur] | H]; [congruence |].
           destruct (IH EmptyString true (or_intror H)) as [p [Hp Ht]].
           exists p. split; [now right | exact Ht].
        -- exists (String c0 cur). split; [now left | reflexivity].
    + apply (IH (snoc cur c) false). left. split; [reflexivity |].
      unfold snoc. destruct cur; discriminate.
Qed.

End AllergyTokens.

(** X18. When the host's lower-cased allergy text has a character that is
    not a separator and occurs as a whole in the guest's lower-cased
    allergy text (as when both records list the same allergies), the pair
    does not get the allergy points: if it passes the gate, its reasons
    leave out "Allergies compatible" and its score is at most 15. *)
Theorem shared_allergy_text_not_compatible (g h : obj)
    (Htok : has_token (toLowerCase (field "allergies" h)) = true)
    (Hin : includes (toLowerCase (field "allergies" g))
                    (toLowerCase (field "allergies" h)) = true) :
  allergyOk g h = false
  /\ (genderOk g h = true ->
      ~ In "Allergies compatible" (reasons (suggestion_of (g, h)))
      /\ (score (suggestion_of (g, h)) <= 15)%Z).
Proof.
  set (ga := toLowerCase (field "allergies" g)) in *.
  set (ha := toLowerCase (field "allergies" h)) in *.
  assert (A : allergyOk g h = false).
  { unfold allergyOk. fold ga ha.
    assert (Hha : truthy ha = true) by (destruct ha; [discriminate | reflexivity]).
    assert (Hga : truthy ga = true).
    { destruct ga; [| reflexivity]. apply includes_empty in Hin.
      rewrite Hin in Hha. discriminate. }
    rewrite Hha, Hga. simpl. apply negb_false_iff, existsb_exists.
    destruct (split_seps_from_token ha EmptyString false (or_intror Htok))
      as [p [Hp Ht]].
    exists p. split; [exact Hp |]. rewrite Ht. simpl.
    apply (includes_trans _ _ _ Hin).
    pose proof (split_seps_from_includes ha EmptyString EmptyString false) as F.
    rewrite Forall_forall in F. exact (F p Hp). }
  split; [exact A |].
  intros Hg. simpl. unfold score_pair. rewrite Hg, A.
  destruct (accessOk g h), (bothConfirmed g h); simpl; split;
    try lia; intuition discriminate.
Qed.

Lemma shared_allergy_text_not_compatible_witness :
  allergyOk [("allergies", "Peanuts; Gluten, shellfish")]
            [("allergies", "gluten")] = false.
Proof.
  refine (proj1 (shared_allergy_text_not_compatible
                   [("allergies", "Peanuts; Gluten, shellfish")]
                   [("allergies", "gluten")] _ _)); reflexivity.
Defined.
